(** * Turn dispatcher and session controller of [main.py]

    A shallow embedding of the game-playing script: the action codec
    ([_get_action]), the chance sampling at chance nodes, the per-ply
    dispatcher and the forced-opening replay ([_play_game]) and the session
    loop ([main]), followed by the properties of these functions.

    The game engine (pyspiel) and the agents (open_spiel bots) are external
    collaborators: they appear as records of operations.  Python exceptions
    are values of [exn]; the global generators, the terminal input and the
    operating system's entropy are fields of an explicit [World].  Of what
    the script prints only the final report is kept; the board printer and
    the progress lines read the state without changing it and are left out.
    The user's interrupt is met where the script waits for the terminal.
    Loops whose length the engine decides take a [fuel] bound. *)

From Stdlib Require Import ZArith QArith String List Lia Bool.
From stdpp Require Import gmap strings list.

Local Open Scope string_scope.
Local Open Scope list_scope.
Local Open Scope Z_scope.

(** ** Values of the engine *)

(** An action is an integer identifier; a player is a seat (0, 1) or one of
    pyspiel's special identifiers (chance is -1, simultaneous is -2). *)
Definition Action := Z.
Definition Player := Z.

(** The operations of [pyspiel.State] and [pyspiel.Game] the script calls. *)
Record Game (State : Type) := mkGame {
  num_players : Z;
  new_initial_state : State;
  current_player : State -> Player;
  is_terminal : State -> bool;
  is_chance_node : State -> bool;
  is_simultaneous_node : State -> bool;
  legal_actions : State -> list Action;
  action_to_string : State -> Player -> Action -> string;
  chance_outcomes : State -> list (Action * Q);
  apply_action : State -> Action -> State;
  returns : State -> list Q
}.

Arguments num_players {State} _.
Arguments new_initial_state {State} _.
Arguments current_player {State} _ _.
Arguments is_terminal {State} _ _.
Arguments is_chance_node {State} _ _.
Arguments is_simultaneous_node {State} _ _.
Arguments legal_actions {State} _ _.
Arguments action_to_string {State} _ _ _ _.
Arguments chance_outcomes {State} _ _.
Arguments apply_action {State} _ _ _.
Arguments returns {State} _ _.

(** ** Exceptions *)

Inductive exn :=
| SystemExit (msg : string)
| ValueError (msg : string)
| TypeError (msg : string)
| AssertionError
| IndexError
| EOFError
| KeyboardInterrupt.

(** ** Pseudorandom generators

    A generator is embedded as the sequence of raw words it is going to
    deliver together with a cursor: drawing reads the word under the cursor
    and moves the cursor by one. *)
Record RandomState := mkRandomState {
  raw : nat -> Z;
  cursor : nat
}.

Definition advance (rs : RandomState) : RandomState :=
  {| raw := raw rs; cursor := S (cursor rs) |}.

(** [random_sample()]: a double with 53 bits of resolution in [0, 1). *)
Definition random_sample (rs : RandomState) : Q * RandomState :=
  (Qmake (raw rs (cursor rs) mod 2 ^ 53) (2 ^ 53), advance rs).

(** [p.cumsum()] *)
Fixpoint cumsum (acc : Q) (p : list Q) : list Q :=
  match p with
  | [] => []
  | x :: rest => (acc + x)%Q :: cumsum (acc + x)%Q rest
  end.

(** [cdf.searchsorted(u, side='right')] on a sorted array: the number of
    leading entries that are at most [u]. *)
Fixpoint searchsorted_right (cdf : list Q) (u : Q) : nat :=
  match cdf with
  | [] => O
  | c :: rest => if Qle_bool c u then S (searchsorted_right rest u) else O
  end.

Definition Qsum (p : list Q) : Q := fold_right Qplus 0%Q p.

(** [RandomState.choice(a, p=p)] for one draw with replacement: the
    arguments are validated, then one uniform sample is drawn and inverted
    through the normalised cumulative sums.  Probabilities are rationals and
    the arithmetic is exact; numpy computes in doubles and accepts a sum that
    differs from 1 by a rounding error, so the two agree on probabilities
    that doubles hold exactly (0, 1, 1/2, ...), which are the ones the
    properties below run it on; the others only use that an answer is an
    element of [a]. *)
Definition choice (rs : RandomState) (a : list Action) (p : list Q)
  : (exn + Action) * RandomState :=
  if Nat.eqb (length a) 0 then
    (inl (ValueError "'a' cannot be empty unless no samples are taken"), rs)
  else if negb (Nat.eqb (length a) (length p)) then
    (inl (ValueError "'a' and 'p' must have same size"), rs)
  else if negb (forallb (fun x => Qle_bool 0 x) p) then
    (inl (ValueError "probabilities are not non-negative"), rs)
  else if negb (Qeq_bool (Qsum p) 1) then
    (inl (ValueError "probabilities do not sum to 1"), rs)
  else
    let cdf := cumsum 0 p in
    let total := List.last cdf 1%Q in
    let cdf := List.map (fun c => (c / total)%Q) cdf in
    let '(u, rs') := random_sample rs in
    match List.nth_error a (searchsorted_right cdf u) with
    | Some x => (inr x, rs')
    | None => (inl IndexError, rs')
    end.

(** Python's global [random] module: the generator is embedded as the
    answers it is going to give; the k-th call asked for an index below [n]
    answers [below k n mod n]. *)
Record PyRandom := mkPyRandom {
  below : nat -> nat -> nat;
  py_cursor : nat
}.

(** [random.choice(seq)] *)
Definition random_choice {A} (g : PyRandom) (seq : list A)
  : (exn + A) * PyRandom :=
  match seq with
  | [] => (inl IndexError, g)
  | _ :: _ =>
    let i := (below g (py_cursor g) (length seq) mod length seq)%nat in
    let g' := {| below := below g; py_cursor := S (py_cursor g) |} in
    match List.nth_error seq i with
    | Some x => (inr x, g')
    | None => (inl IndexError, g')
    end
  end.

(** ** The world outside the script *)

(** What [input()] meets on the terminal: a line, or the user's interrupt.
    An exhausted list is a closed stream. *)
Inductive tty_event :=
| Line (s : string)
| CtrlC.

Record World := mkWorld {
  np_random : RandomState;          (* numpy's global generator *)
  py_random : PyRandom;             (* the global generator of [random] *)
  stdin : list tty_event;
  entropy : nat -> nat -> Z;        (* streams handed out for unseeded generators *)
  entropy_used : nat
}.

Definition set_np_random (w : World) (rs : RandomState) : World :=
  {| np_random := rs; py_random := py_random w; stdin := stdin w;
     entropy := entropy w; entropy_used := entropy_used w |}.

Definition set_py_random (w : World) (g : PyRandom) : World :=
  {| np_random := np_random w; py_random := g; stdin := stdin w;
     entropy := entropy w; entropy_used := entropy_used w |}.

Definition set_stdin (w : World) (l : list tty_event) : World :=
  {| np_random := np_random w; py_random := py_random w; stdin := l;
     entropy := entropy w; entropy_used := entropy_used w |}.

(** [input(prompt)] *)
Definition input (w : World) : (exn + string) * World :=
  match stdin w with
  | [] => (inl EOFError, w)
  | CtrlC :: rest => (inl KeyboardInterrupt, set_stdin w rest)
  | Line s :: rest => (inr s, set_stdin w rest)
  end.

(** ** Agents

    A bot is an object of some class: the class fixes the type of the
    object's memory and its methods, each of which returns the memory it
    leaves behind.  [is_HumanBot] is [isinstance(bot, human.HumanBot)]. *)
Record BotClass (State : Type) := mkBotClass {
  Mem : Type;
  is_HumanBot : bool;
  step_m : Mem -> State -> Action * Mem;
  inform_action_m : Mem -> State -> Player -> Action -> Mem;
  restart_m : Mem -> Mem
}.

Arguments Mem {State} _.
Arguments is_HumanBot {State} _.
Arguments step_m {State} _ _ _.
Arguments inform_action_m {State} _ _ _ _ _.
Arguments restart_m {State} _ _.

Record Bot (State : Type) := mkBot {
  class_of : BotClass State;
  self : Mem class_of
}.

Arguments mkBot {State} _ _.
Arguments class_of {State} _.
Arguments self {State} _.

(** The command-line flags. *)
Record Flags := mkFlags {
  flag_game : string;
  player1 : string;
  player2 : string;
  gtp_path : option string;
  gtp_cmd : list string;
  az_path : option string;
  uct_c : Z;
  rollout_count : Z;
  max_simulations : Z;
  num_games : Z;
  seed : option Z;
  random_first : bool;
  solve : bool;
  quiet : bool;
  verbose : bool
}.

Definition _KNOWN_PLAYERS : list string :=
  ["mcts"; "random"; "human"; "gtp"; "az"].

(** The constructors of the open_spiel bots (each with the flags it reads;
    [AlphaZeroBot] includes the loading of the checkpoint of [--az_path],
    [GTPBot] the start of the program of [--gtp_path] and the priming
    commands of [--gtp_cmd]) and the output of numpy's generator for a given
    seed.  The constructors that check their arguments or reach outside the
    process can raise: a search bot refuses a game it cannot search, a
    checkpoint or a program may be missing. *)
Record BotLibrary (State : Type) := mkBotLibrary {
  seeded_stream : Z -> nat -> Z;
  MCTSBot : Flags -> RandomState -> exn + Bot State;
  AlphaZeroBot : Flags -> RandomState -> exn + Bot State;
  UniformRandomBot : Z -> RandomState -> Bot State;
  GTPBot : Flags -> exn + Bot State
}.

Arguments seeded_stream {State} _ _ _.
Arguments MCTSBot {State} _ _ _.
Arguments AlphaZeroBot {State} _ _ _.
Arguments UniformRandomBot {State} _ _ _.
Arguments GTPBot {State} _ _.

(** ** What a game leaves behind: the calls on the engine and the bots *)

Inductive event (State : Type) :=
| Classified (s : State)
| Informed (seat : nat) (s : State) (player : Player) (a : Action)
| Applied (s : State) (a : Action).

Arguments Classified {State} _.
Arguments Informed {State} _ _ _ _.
Arguments Applied {State} _ _.

(** The variables of [_play_game], the bots (shared with [main]) and the
    world. *)
Record Run (State : Type) := mkRun {
  state : State;
  bots : list (Bot State);
  history : list string;
  trace : list (event State);
  world : World
}.

Arguments mkRun {State} _ _ _ _ _.
Arguments state {State} _.
Arguments bots {State} _.
Arguments history {State} _.
Arguments trace {State} _.
Arguments world {State} _.

Inductive Outcome (State A : Type) :=
| Returned (a : A) (r : Run State)
| Raised (e : exn) (r : Run State)
| OutOfFuel (r : Run State).

Arguments Returned {State A} _ _.
Arguments Raised {State A} _ _.
Arguments OutOfFuel {State A} _.

Definition run_of {State A} (o : Outcome State A) : Run State :=
  match o with
  | Returned _ r => r
  | Raised _ r => r
  | OutOfFuel r => r
  end.

(** [l[i]] for a Python list: negative indices count from the end. *)
Definition py_index {A} (l : list A) (i : Z) : option nat :=
  let n := Z.of_nat (length l) in
  if (0 <=? i) && (i <? n) then Some (Z.to_nat i)
  else if (- n <=? i) && (i <? 0) then Some (Z.to_nat (n + i))
  else None.

Section Play.

Context {State : Type}.
Variable game : Game State.
Variable FLAGS : Flags.

(** *** Methods on bot objects *)

Definition bot_step (b : Bot State) (s : State) : Action * Bot State :=
  let '(a, m) := step_m (class_of b) (self b) s in (a, mkBot (class_of b) m).

Definition bot_inform_action (b : Bot State) (s : State) (p : Player)
  (a : Action) : Bot State :=
  mkBot (class_of b) (inform_action_m (class_of b) (self b) s p a).

Definition bot_restart (b : Bot State) : Bot State :=
  mkBot (class_of b) (restart_m (class_of b) (self b)).

(** [human.HumanBot()]: nothing to remember; the script reads the human's
    move itself and never calls [step] on such a bot. *)
Definition HumanBot_class : BotClass State :=
  {| Mem := unit;
     is_HumanBot := true;
     step_m := fun _ _ => (-1, tt);
     inform_action_m := fun _ _ _ _ => tt;
     restart_m := fun _ => tt |}.

Definition HumanBot : Bot State := mkBot HumanBot_class tt.

(** *** Action codec *)

Definition label_of (s : State) (a : Action) : string :=
  action_to_string game s (current_player game s) a.

Definition _get_action (state : State) (action_str : string) : option Action :=
  List.find (fun action => String.eqb action_str (label_of state action))
            (legal_actions game state).

(** *** Chance sampling (lines 140-144) *)

Definition sample_chance (outcomes : list (Action * Q)) (w : World)
  : (exn + Action) * World :=
  match outcomes with
  | [] => (inl (ValueError "not enough values to unpack (expected 2, got 0)"), w)
  | _ :: _ =>
    let '(action_list, prob_list) := List.split outcomes in
    let '(res, rs) := choice (np_random w) action_list prob_list in
    (res, set_np_random w rs)
  end.

(** *** Notifications *)

(** [for bot in bots: bot.inform_action(state, state.current_player(), action)] *)
Fixpoint inform_all (i : nat) (bs : list (Bot State)) (s : State) (a : Action)
  : list (Bot State) * list (event State) :=
  match bs with
  | [] => ([], [])
  | bot :: rest =>
    let '(rest', evs) := inform_all (S i) rest s a in
    (bot_inform_action bot s (current_player game s) a :: rest',
     Informed i s (current_player game s) a :: evs)
  end.

(** [for i, bot in enumerate(bots): if i != current_player: bot.inform_action(...)] *)
Fixpoint inform_others (i : nat) (bs : list (Bot State)) (cp : Player)
  (s : State) (a : Action) : list (Bot State) * list (event State) :=
  match bs with
  | [] => ([], [])
  | bot :: rest =>
    let '(rest', evs) := inform_others (S i) rest cp s a in
    if Z.of_nat i =? cp then (bot :: rest', evs)
    else (bot_inform_action bot s cp a :: rest', Informed i s cp a :: evs)
  end.

(** *** Forced openings (lines 126-135) *)

Fixpoint opening_loop (initial_actions : list string) (r : Run State)
  : Outcome State unit :=
  match initial_actions with
  | [] => Returned tt r
  | action_str :: rest =>
    match _get_action (state r) action_str with
    | None => Raised (SystemExit ("Invalid action: " +:+ action_str)) r
    | Some action =>
      let history' := history r ++ [action_str] in
      let '(bots', evs) := inform_all 0 (bots r) (state r) action in
      let state' := apply_action game (state r) action in
      opening_loop rest
        (mkRun state' bots' history'
               (trace r ++ evs ++ [Applied (state r) action]) (world r))
    end
  end.

(** *** One turn of the dispatcher (the body of the loop, lines 138-166) *)

(** Lines 162-166: tell the others, record the label, apply. *)
Definition conclude_ply (r : Run State) (current_player : Player)
  (action : Action) (action_str : string) : Run State :=
  let '(bots', evs) := inform_others 0 (bots r) current_player (state r) action in
  mkRun (apply_action game (state r) action) bots'
        (history r ++ [action_str])
        (trace r ++ evs ++ [Applied (state r) action]) (world r).

Definition with_world (r : Run State) (w : World) : Run State :=
  mkRun (state r) (bots r) (history r) (trace r) w.

Definition with_bots (r : Run State) (bs : list (Bot State)) : Run State :=
  mkRun (state r) bs (history r) (trace r) (world r).

Definition classify (r : Run State) : Run State :=
  mkRun (state r) (bots r) (history r) (trace r ++ [Classified (state r)])
        (world r).

Definition dispatch_ply (r0 : Run State) : exn * Run State + Run State :=
  let r := classify r0 in
  let current_player := current_player game (state r) in
  if is_chance_node game (state r) then
    let '(res, w) := sample_chance (chance_outcomes game (state r)) (world r) in
    match res with
    | inl e => inl (e, with_world r w)
    | inr action =>
      let action_str := action_to_string game (state r) current_player action in
      inr (conclude_ply (with_world r w) current_player action action_str)
    end
  else if is_simultaneous_node game (state r) then
    inl (ValueError "Game cannot have simultaneous nodes.", r)
  else
    match py_index (bots r) current_player with
    | None => inl (IndexError, r)
    | Some i =>
      match bots r !! i with
      | None => inl (IndexError, r)
      | Some bot =>
        if is_HumanBot (class_of bot) then
          let '(res, w) := input (world r) in
          match res with
          | inl e => inl (e, with_world r w)
          | inr action_str =>
            match _get_action (state r) action_str with
            | None =>
              inl (SystemExit ("Invalid move: " +:+ action_str), with_world r w)
            | Some action =>
              inr (conclude_ply (with_world r w) current_player action action_str)
            end
          end
        else
          let '(action, bot') := bot_step bot (state r) in
          let action_str := action_to_string game (state r) current_player action in
          inr (conclude_ply (with_bots r (<[i := bot']> (bots r)))
                            current_player action action_str)
      end
    end.

(** [while not state.is_terminal(): ...] *)
Fixpoint play_loop (fuel : nat) (r : Run State) : Outcome State unit :=
  if is_terminal game (state r) then Returned tt r
  else
    match fuel with
    | O => OutOfFuel r
    | S fuel' =>
      match dispatch_ply r with
      | inl (e, r') => Raised e r'
      | inr r' => play_loop fuel' r'
      end
    end.

(** Lines 121-124: [--random_first] replaces the openings by one label drawn
    with the global generator of [random]. *)
Definition choose_openings (initial_actions : list string) (r : Run State)
  : exn * Run State + list string * Run State :=
  if random_first FLAGS then
    match initial_actions with
    | _ :: _ => inl (AssertionError, r)
    | [] =>
      let '(res, g) := random_choice (py_random (world r))
                                     (legal_actions game (state r)) in
      let r' := with_world r (set_py_random (world r) g) in
      match res with
      | inl e => inl (e, r')
      | inr a => inr ([label_of (state r) a], r')
      end
    end
  else inr (initial_actions, r).

Definition _play_game (bs : list (Bot State)) (initial_actions : list string)
  (w : World) (fuel : nat) : Outcome State (list Q * list string) :=
  let r := mkRun (new_initial_state game) bs [] [] w in
  match choose_openings initial_actions r with
  | inl (e, r) => Raised e r
  | inr (initial_actions, r) =>
    match opening_loop initial_actions r with
    | Raised e r => Raised e r
    | OutOfFuel r => OutOfFuel r
    | Returned _ r =>
      match play_loop fuel r with
      | Raised e r => Raised e r
      | OutOfFuel r => OutOfFuel r
      | Returned _ r =>
        let returns := returns game (state r) in
        Returned (returns, history r)
                 (with_bots r (List.map bot_restart (bots r)))
      end
    end
  end.

End Play.

(** ** The session *)

(** The accumulators of [main]. *)
Record Locals := mkLocals {
  histories : gmap string Z;
  overall_returns : list Q;
  overall_wins : list Z;
  game_num : Z
}.

(** The lines printed at the end of the session. *)
Record Report := mkReport {
  games_played : Z;
  distinct_games : nat;
  players : string * string;
  wins : list Z;
  total_returns : list Q
}.

Inductive MainResult :=
| Finished (rep : Report) (w : World)
| Crashed (e : exn) (l : Locals) (w : World)
| Hung (l : Locals) (w : World).

(** [range(n)] *)
Definition range (n : Z) : list Z := List.map Z.of_nat (seq 0 (Z.to_nat n)).

(** [" ".join(history)] *)
Definition join (history : list string) : string := String.concat " " history.

(** [histories[key] += 1] on a [defaultdict(int)] *)
Definition count_history (h : gmap string Z) (key : string) : gmap string Z :=
  <[key := default 0 (h !! key) + 1]> h.

(** Lines 207-210; an index outside the two-element accumulators raises. *)
Fixpoint tally (i : nat) (returns : list Q) (ors : list Q) (ows : list Z)
  : option exn * list Q * list Z :=
  match returns with
  | [] => (None, ors, ows)
  | v :: rest =>
    match ors !! i with
    | None => (Some IndexError, ors, ows)
    | Some x =>
      let ors' := <[i := (x + v)%Q]> ors in
      if negb (Qle_bool v 0) then
        match ows !! i with
        | None => (Some IndexError, ors', ows)
        | Some k => tally (S i) rest ors' (<[i := k + 1]> ows)
        end
      else tally (S i) rest ors' ows
    end
  end.

Definition initial_locals : Locals :=
  {| histories := ∅; overall_returns := [0%Q; 0%Q]; overall_wins := [0; 0];
     game_num := 0 |}.

Definition report_of (FLAGS : Flags) (l : Locals) : Report :=
  {| games_played := game_num l + 1;
     distinct_games := size (histories l);
     players := (player1 FLAGS, player2 FLAGS);
     wins := overall_wins l;
     total_returns := overall_returns l |}.

Definition with_game_num (l : Locals) (n : Z) : Locals :=
  {| histories := histories l; overall_returns := overall_returns l;
     overall_wins := overall_wins l; game_num := n |}.

Section Session.

Context {State : Type}.
Variable game : Game State.
Variable lib : BotLibrary State.
Variable FLAGS : Flags.

(** [np.random.RandomState(seed)]: a seed must fit in 32 bits; without a
    seed the generator is initialised from the operating system's entropy. *)
Definition RandomState_new (seed : option Z) (w : World)
  : (exn + RandomState) * World :=
  match seed with
  | Some s =>
    if (0 <=? s) && (s <=? 2 ^ 32 - 1) then
      (inr {| raw := seeded_stream lib s; cursor := O |}, w)
    else (inl (ValueError "Seed must be between 0 and 2**32 - 1"), w)
  | None =>
    (inr {| raw := entropy w (entropy_used w); cursor := O |},
     {| np_random := np_random w; py_random := py_random w; stdin := stdin w;
        entropy := entropy w; entropy_used := S (entropy_used w) |})
  end.

Definition _init_bot (bot_type : string) (player_id : Z) (w : World)
  : (exn + Bot State) * World :=
  let '(rng, w) := RandomState_new (seed FLAGS) w in
  match rng with
  | inl e => (inl e, w)
  | inr rng =>
    if String.eqb bot_type "mcts" then (MCTSBot lib FLAGS rng, w)
    else if String.eqb bot_type "az" then (AlphaZeroBot lib FLAGS rng, w)
    else if String.eqb bot_type "random" then
      (inr (UniformRandomBot lib player_id rng), w)
    else if String.eqb bot_type "human" then (inr HumanBot, w)
    else if String.eqb bot_type "gtp" then (GTPBot lib FLAGS, w)
    else (inl (ValueError ("Invalid bot type: " +:+ bot_type)), w)
  end.

Inductive SessionOutcome :=
| Completed (l : Locals) (bs : list (Bot State)) (w : World)
| Stopped (e : exn) (l : Locals) (bs : list (Bot State)) (w : World)
| Stalled (l : Locals) (bs : list (Bot State)) (w : World).

(** Lines 206-210: fold one result into the accumulators. *)
Definition record_game (l : Locals) (n : Z) (returns : list Q)
  (history : list string) : option exn * Locals :=
  let h := count_history (histories l) (join history) in
  let '(err, ors, ows) :=
    tally 0 returns (overall_returns l) (overall_wins l) in
  (err, {| histories := h; overall_returns := ors; overall_wins := ows;
           game_num := n |}).

(** The body of the [try], lines 199-210. *)
Fixpoint session_loop (games : list Z) (bs : list (Bot State)) (l : Locals)
  (initial_actions : list string) (w : World) (fuel : nat) : SessionOutcome :=
  match games with
  | [] => Completed l bs w
  | n :: rest =>
    let l := with_game_num l n in
    let bs := if n =? 2 then <[1%nat := HumanBot]> bs else bs in
    match _play_game game FLAGS bs initial_actions w fuel with
    | Raised e r => Stopped e l (bots r) (world r)
    | OutOfFuel r => Stalled l (bots r) (world r)
    | Returned (returns, history) r =>
      let '(err, l) := record_game l n returns history in
      match err with
      | Some e => Stopped e l (bots r) (world r)
      | None => session_loop rest (bots r) l initial_actions (world r) fuel
      end
    end
  end.

(** Lines 211-219: the handler of [KeyboardInterrupt] and [EOFError], and
    the report; any other exception leaves [main]. *)
Definition finish (o : SessionOutcome) : MainResult :=
  match o with
  | Completed l _ w => Finished (report_of FLAGS l) w
  | Stalled l _ w => Hung l w
  | Stopped e l _ w =>
    match e with
    | KeyboardInterrupt | EOFError =>
      Finished (report_of FLAGS (with_game_num l (game_num l - 1))) w
    | _ => Crashed e l w
    end
  end.

Definition main (argv : list string) (w : World) (fuel : nat) : MainResult :=
  if 2 <? num_players game then
    Crashed (SystemExit
      "This game requires more players than the example can handle.")
      initial_locals w
  else
    let '(b1, w) := _init_bot (player1 FLAGS) 0 w in
    match b1 with
    | inl e => Crashed e initial_locals w
    | inr b1 =>
      let '(b2, w) := _init_bot (player2 FLAGS) 1 w in
      match b2 with
      | inl e => Crashed e initial_locals w
      | inr b2 =>
        finish (session_loop (range (num_games FLAGS)) [b1; b2] initial_locals
                             (List.tl argv) w fuel)
      end
    end.

End Session.

(** ** Small engines, bots and worlds to run the definitions on *)

Module Toy.

(** What is pending after a given number of plies. *)
Inductive node :=
| Seat (p : Player)
| Chance (dist : list (Action * Q))
| Simultaneous.

Definition node_at (plan : list node) (s : list Action) : option node :=
  plan !! length s.

(** A game that follows a fixed plan of decision kinds; a state is the list
    of the actions applied so far, and the game is over at the end of the
    plan. *)
Definition engine (plan : list node) (acts : list Action)
  (label : Action -> string) (score : list Action -> list Q)
  : Game (list Action) :=
  {| num_players := 2;
     new_initial_state := [];
     current_player := fun s =>
       match node_at plan s with
       | Some (Seat p) => p
       | Some (Chance _) => -1
       | Some Simultaneous => -2
       | None => -4
       end;
     is_terminal := fun s =>
       match node_at plan s with None => true | Some _ => false end;
     is_chance_node := fun s =>
       match node_at plan s with Some (Chance _) => true | _ => false end;
     is_simultaneous_node := fun s =>
       match node_at plan s with Some Simultaneous => true | _ => false end;
     legal_actions := fun s =>
       match node_at plan s with
       | Some (Seat _) => acts
       | Some (Chance d) => List.map fst d
       | _ => []
       end;
     action_to_string := fun _ _ a => label a;
     chance_outcomes := fun s =>
       match node_at plan s with Some (Chance d) => d | _ => [] end;
     apply_action := fun s a => s ++ [a];
     returns := score |}.

Definition abc_label (a : Action) : string :=
  if a =? 0 then "A" else if a =? 1 then "B" else "C".

Definition digit_label (a : Action) : string :=
  if a =? 0 then "0" else "1".

(** The first mover wins with the smaller action, loses with the larger. *)
Definition abc_score (s : list Action) : list Q :=
  match s with
  | [a; b] =>
    if a <? b then [1%Q; (-1)%Q]
    else if b <? a then [(-1)%Q; 1%Q] else [0%Q; 0%Q]
  | _ => [0%Q; 0%Q]
  end.

(** Seat 0 then seat 1 choose among "A", "B" and "C"; two plies. *)
Definition abc : Game (list Action) :=
  engine [Seat 0; Seat 1] [0; 1; 2] abc_label abc_score.

(** Two legal actions that carry the same label. *)
Definition twins : Game (list Action) :=
  engine [Seat 0] [0; 1] (fun _ => "x") (fun _ => [0%Q; 0%Q]).

Definition coin_score (s : list Action) : list Q :=
  match s with
  | [a] => if a =? 0 then [1%Q; (-1)%Q] else [(-1)%Q; 1%Q]
  | _ => [0%Q; 0%Q]
  end.

(** One fair coin flip decides the game. *)
Definition coin : Game (list Action) :=
  engine [Chance [(0, 1 # 2); (1, 1 # 2)]] [] digit_label coin_score.

(** A single simultaneous-move node. *)
Definition duel : Game (list Action) :=
  engine [Simultaneous] [0; 1] digit_label (fun _ => [0%Q; 0%Q]).



(** A bot that always plays the legal action of rank [k] and counts what it
    is told. *)
Definition nth_legal_class {State} (g : Game State) (k : nat) : BotClass State :=
  {| Mem := nat;
     is_HumanBot := false;
     step_m := fun m s => (List.nth k (legal_actions g s) (-1), m);
     inform_action_m := fun m _ _ _ => S m;
     restart_m := fun _ => O |}.

Definition nth_legal {State} (g : Game State) (k : nat) : Bot State :=
  mkBot (nth_legal_class g k) O.

Definition first_legal {State} (g : Game State) : Bot State := nth_legal g 0.

(** Scripted stand-ins for the open_spiel bots: the "random" bot of seat [k]
    plays the legal action of rank [k], the search bots the first one; the
    checkpoint and the external program need their path. *)
Definition scripted {State} (g : Game State) : BotLibrary State :=
  {| seeded_stream := fun s k => s + Z.of_nat k;
     MCTSBot := fun _ _ => inr (first_legal g);
     AlphaZeroBot := fun flags _ =>
       match az_path flags with
       | Some _ => inr (first_legal g)
       | None => inl (TypeError "expected a checkpoint path, got None")
       end;
     UniformRandomBot := fun player_id _ => nth_legal g (Z.to_nat player_id);
     GTPBot := fun flags =>
       match gtp_path flags with
       | Some _ => inr (first_legal g)
       | None => inl (TypeError "expected a program path, got None")
       end |}.

(** A world whose numpy generator always delivers the word [word]. *)
Definition still (word : Z) (keys : list tty_event) : World :=
  {| np_random := {| raw := fun _ => word; cursor := O |};
     py_random := {| below := fun _ _ => O; py_cursor := O |};
     stdin := keys;
     entropy := fun _ _ => 0;
     entropy_used := O |}.

Definition flags (p1 p2 : string) (n : Z) (sd : option Z) : Flags :=
  {| flag_game := "toy"; player1 := p1; player2 := p2; gtp_path := None;
     gtp_cmd := []; az_path := None; uct_c := 3; rollout_count := 1;
     max_simulations := 70; num_games := n; seed := sd;
     random_first := false; solve := true; quiet := true; verbose := false |}.

End Toy.


(** ** Vocabulary of the properties *)

(** The legal actions of [s] whose label is [l], in the engine's order. *)
Definition matching {State} (game : Game State) (s : State) (l : string)
  : list Action :=
  List.filter (fun a => String.eqb l (label_of game s a)) (legal_actions game s).

(** The codec as the specification words it for duplicates: a label carried
    by more than one legal action is not resolved to any of them. *)
Definition rejects_duplicates {State} (game : Game State) : Prop :=
  forall s l, (1 < length (matching game s l))%nat -> _get_action game s l = None.

(** Replaying labels from a state through the codec: the state reached when
    every label resolves. *)
Fixpoint replay {State} (game : Game State) (s : State) (labels : list string)
  : option State :=
  match labels with
  | [] => Some s
  | l :: rest =>
    match _get_action game s l with
    | None => None
    | Some a => replay game (apply_action game s a) rest
    end
  end.

(** An inform call about action [a] in state [s]. *)
Definition informs_of {State} (s : State) (a : Action) (e : event State) : Prop :=
  exists i p, e = Informed i s p a.

(** The order of the calls of a game, ply by ply: the bots are told about
    an action in the state it is about to be applied to, then it is applied;
    a ply of the dispatcher loop starts with the classification of that
    state, and a ply that raises ends the trace there. *)
Inductive well_ordered {State} : list (event State) -> Prop :=
| wo_nil : well_ordered []
| wo_forced s a informs tr :
    Forall (informs_of s a) informs ->
    well_ordered tr ->
    well_ordered (informs ++ Applied s a :: tr)
| wo_dispatched s a informs tr :
    Forall (informs_of s a) informs ->
    well_ordered tr ->
    well_ordered (Classified s :: informs ++ Applied s a :: tr)
| wo_raised s : well_ordered [Classified s].

(** The order as the specification words it: a bot is told about an action
    after it was applied, and is shown the state the application produced. *)
Definition informs_follow_apply {State} (game : Game State)
  (tr : list (event State)) : Prop :=
  forall pre i s p a post,
    tr = pre ++ Informed i s p a :: post ->
    exists pre' s0 mid,
      pre = pre' ++ Applied s0 a :: mid /\ s = apply_action game s0 a.

(** How many times the bot of seat [i] is told something in [evs]. *)
Definition told {State} (i : nat) (evs : list (event State)) : nat :=
  length (List.filter
            (fun e => match e with
                      | Informed j _ _ _ => Nat.eqb j i
                      | _ => false
                      end) evs).

(** Who is told about each ply in a game with [n] bots: every bot once for a
    forced opening; every bot but the one whose index is the current player
    once for a ply of the dispatcher loop. *)
Inductive recipients_ok {State} (game : Game State) (n : nat)
  : list (event State) -> Prop :=
| ro_nil : recipients_ok game n []
| ro_forced s a informs tr :
    Forall (informs_of s a) informs ->
    (forall i, told i informs = if (i <? n)%nat then 1%nat else 0%nat) ->
    recipients_ok game n tr ->
    recipients_ok game n (informs ++ Applied s a :: tr)
| ro_dispatched s a informs tr :
    Forall (informs_of s a) informs ->
    (forall i, told i informs =
               if (i <? n)%nat && negb (Z.of_nat i =? current_player game s)
               then 1%nat else 0%nat) ->
    recipients_ok game n tr ->
    recipients_ok game n (Classified s :: informs ++ Applied s a :: tr)
| ro_raised s : recipients_ok game n [Classified s].

(** The recipients as the specification words them: the bot of the acting
    seat is never told about its own seat's action. *)
Definition spares_actor {State} (tr : list (event State)) : Prop :=
  forall pre i s p a post,
    tr = pre ++ Informed i s p a :: post ->
    Z.of_nat i <> p.

(** The calls of one ply of the dispatcher loop, after the classification. *)
Definition ply_calls {State} (game : Game State) (n : nat) (s : State)
  (a : Action) : list (event State) :=
  List.map (fun j => Informed j s (current_player game s) a)
    (List.filter (fun j => negb (Z.of_nat j =? current_player game s)) (seq 0 n))
  ++ [Applied s a].

(** The calls of the plies of a game with [n] bots, exactly. *)
Inductive ply_shape {State} (game : Game State) (n : nat)
  : list (event State) -> Prop :=
| ps_nil : ply_shape game n []
| ps_forced s a tr :
    ply_shape game n tr ->
    ply_shape game n
      (List.map (fun j => Informed j s (current_player game s) a) (seq 0 n)
       ++ Applied s a :: tr)
| ps_dispatched s a tr :
    ply_shape game n tr ->
    ply_shape game n
      (Classified s ::
       List.map (fun j => Informed j s (current_player game s) a)
         (List.filter (fun j => negb (Z.of_nat j =? current_player game s))
                      (seq 0 n))
       ++ Applied s a :: tr)
| ps_raised s : ply_shape game n [Classified s].

(** ** Further vocabulary *)

(** The labels of the actions applied in a trace, each under the perspective
    of the player to move in the state it was applied to. *)
Fixpoint applied_labels {State} (game : Game State) (tr : list (event State))
  : list string :=
  match tr with
  | [] => []
  | Applied s a :: rest => label_of game s a :: applied_labels game rest
  | _ :: rest => applied_labels game rest
  end.




(** The history lists the labels of the applied actions, in order. *)
Definition history_ok {State} (game : Game State) (r : Run State) : Prop :=
  history r = applied_labels game (trace r).

(** No bot of the list is a [HumanBot]. *)
Definition no_human {State} (bs : list (Bot State)) : Prop :=
  Forall (fun b => is_HumanBot (class_of b) = false) bs.

(** An exception other than the exit on a typed move that names no legal
    action. *)
Definition not_invalid_move (e : exn) : Prop :=
  forall str, e <> SystemExit ("Invalid move: " +:+ str).



(** The actions applied to chance nodes in a trace are outcomes that the
    engine lists for those nodes. *)
Definition chance_moves_listed {State} (game : Game State)
  (tr : list (event State)) : Prop :=
  forall s a,
    In (Applied s a) tr ->
    is_chance_node game s = true ->
    exists p, In (a, p) (chance_outcomes game s).

(** The same run, outcome or result with numpy's global generator put in the
    state [rs]. *)
Definition renumpy {State} (rs : RandomState) (r : Run State) : Run State :=
  with_world r (set_np_random (world r) rs).

Definition renumpy_outcome {State A} (rs : RandomState) (o : Outcome State A)
  : Outcome State A :=
  match o with
  | Returned a r => Returned a (renumpy rs r)
  | Raised e r => Raised e (renumpy rs r)
  | OutOfFuel r => OutOfFuel (renumpy rs r)
  end.

Definition renumpy_result (rs : RandomState) (m : MainResult) : MainResult :=
  match m with
  | Finished rep w => Finished rep (set_np_random w rs)
  | Crashed e l w => Crashed e l (set_np_random w rs)
  | Hung l w => Hung l (set_np_random w rs)
  end.

Definition renumpy_session {State} (rs : RandomState)
  (o : SessionOutcome (State := State)) : SessionOutcome (State := State) :=
  match o with
  | Completed l bs w => Completed l bs (set_np_random w rs)
  | Stopped e l bs w => Stopped e l bs (set_np_random w rs)
  | Stalled l bs w => Stalled l bs (set_np_random w rs)
  end.

(** What recording a game does to one seat's total and win count, given the
    seat's score in that game, if it has one. *)
Definition bump_return (v : option Q) (x : Q) : Q :=
  match v with
  | Some v => (x + v)%Q
  | None => x
  end.

Definition bump_win (v : option Q) (k : Z) : Z :=
  match v with
  | Some v => if negb (Qle_bool v 0) then k + 1 else k
  | None => k
  end.

(** The score that a loop over [returns] started at index [i] adds at
    index [j]. *)
Definition score_at (i j : nat) (returns : list Q) : option Q :=
  if (i <=? j)%nat then returns !! (j - i)%nat else None.

(** Accumulators that are possible after [c] recorded games: at most [c]
    distinct trajectories, at least one if a game was recorded, and no seat
    with more than [c] wins. *)
Definition stats_within (c : nat) (l : Locals) : Prop :=
  (size (histories l) <= c)%nat /\
  ((0 < c)%nat -> (0 < size (histories l))%nat) /\
  Forall (fun k => 0 <= k <= Z.of_nat c) (overall_wins l).

(** The bots a game of index [c] is played with: seat 1 is handed to a
    [HumanBot] when the game of index 2 starts. *)
Definition seated {State} (c : nat) (bs : list (Bot State)) : list (Bot State) :=
  if Z.of_nat c =? 2 then <[1%nat := HumanBot]> bs else bs.

(** [completes c bs l w c' bs' l' w']: started with the bots [bs], the
    accumulators [l] and the world [w], the games of index [c] to [c' - 1]
    each return a result that is recorded without error, and leave the bots
    [bs'], the accumulators [l'] and the world [w']. *)
Inductive completes {State} (game : Game State) (FLAGS : Flags)
  (labels : list string) (fuel : nat)
  : nat -> list (Bot State) -> Locals -> World ->
    nat -> list (Bot State) -> Locals -> World -> Prop :=
| completes_none c bs l w : completes game FLAGS labels fuel c bs l w c bs l w
| completes_next c bs l w scores h r l1 c' bs' l' w' :
    _play_game game FLAGS (seated c bs) labels w fuel = Returned (scores, h) r ->
    record_game l (Z.of_nat c) scores h = (None, l1) ->
    completes game FLAGS labels fuel (S c) (bots r) l1 (world r) c' bs' l' w' ->
    completes game FLAGS labels fuel c bs l w c' bs' l' w'.

(** ** Properties of the action codec *)

Section Codec.

Context {State : Type}.
Variable game : Game State.

Lemma get_action_head (s : State) (l : string) :
  _get_action game s l = List.hd_error (matching game s l).
Proof.
  unfold _get_action, matching.
  induction (legal_actions game s) as [|a acts IH]; simpl; [reflexivity|].
  destruct (String.eqb l (label_of game s a)); [reflexivity|exact IH].
Qed.

Lemma matching_nil_iff (s : State) (l : string) :
  matching game s l = [] <->
  ~ In l (List.map (label_of game s) (legal_actions game s)).
Proof.
  unfold matching.
  induction (legal_actions game s) as [|a acts IH]; simpl.
  - split; [intros _ []|reflexivity].
  - destruct (String.eqb_spec l (label_of game s a)) as [->|Hne].
    + split; [discriminate|]. intros H. exfalso. apply H. now left.
    + rewrite IH. split.
      * intros H [Heq|Hin]; [congruence|contradiction].
      * intros H Hin. apply H. now right.
Qed.

Lemma matching_sound (s : State) (l : string) (a : Action) :
  In a (matching game s l) ->
  In a (legal_actions game s) /\ label_of game s a = l.
Proof.
  unfold matching. rewrite filter_In. intros [Hin Heq].
  split; [exact Hin|]. symmetry. now apply String.eqb_eq.
Qed.

End Codec.

(** C8 (counterexample).  In the game [Toy.twins] both legal actions of the
    initial state carry the label "x"; [_get_action] answers the first of
    them instead of declining. *)
Lemma get_action_picks_among_duplicates : ~ rejects_duplicates Toy.twins.
Proof.
  intros H. specialize (H [] "x"). vm_compute in H.
  assert (Hlt : (1 < 2)%nat) by lia.
  specialize (H Hlt). discriminate H.
Qed.

(** C8 (amended).  [_get_action] depends on the state and the label only and
    answers the first legal action, in the engine's order, whose label is the
    given one: nothing for a label no legal action carries, the matching
    action for a label carried by exactly one legal action, and the first of
    the matching actions otherwise. *)
Theorem get_action_first_match {State} (game : Game State) (s : State)
  (l : string) :
  _get_action game s l = List.hd_error (matching game s l) /\
  (~ In l (List.map (label_of game s) (legal_actions game s)) ->
   _get_action game s l = None) /\
  (forall a, matching game s l = [a] ->
     _get_action game s l = Some a /\ In a (legal_actions game s) /\
     label_of game s a = l) /\
  (forall a, _get_action game s l = Some a ->
     exists before after,
       legal_actions game s = before ++ a :: after /\
       label_of game s a = l /\
       Forall (fun b => label_of game s b <> l) before).
Proof.
  split; [apply get_action_head|]. split; [|split].
  - intros Hnot. rewrite get_action_head.
    apply matching_nil_iff in Hnot. now rewrite Hnot.
  - intros a Ha. rewrite get_action_head, Ha. split; [reflexivity|].
    apply matching_sound. rewrite Ha. now left.
  - intros a. unfold _get_action.
    induction (legal_actions game s) as [|b acts IH]; simpl; [discriminate|].
    destruct (String.eqb_spec l (label_of game s b)) as [Heq|Hne].
    + intros [= <-]. exists [], acts. repeat split; [now symmetry|constructor].
    + intros Hfind. destruct (IH Hfind) as (before & after & -> & Hl & Hall).
      exists (b :: before), after. repeat split; [exact Hl|].
      constructor; [congruence|exact Hall].
Qed.

(** ** Properties of chance sampling *)

Lemma random_sample_range (rs : RandomState) :
  (0 <= fst (random_sample rs) /\ fst (random_sample rs) < 1)%Q.
Proof.
  unfold random_sample, Qle, Qlt. cbn [fst Qnum Qden].
  assert (Hpos : 0 < Z.pos (2 ^ 53)) by reflexivity.
  pose proof (Z.mod_pos_bound (raw rs (cursor rs)) (2 ^ 53) eq_refl) as Hb.
  change (Z.pos (2 ^ 53)) with (2 ^ 53). lia.
Qed.

(** On the cumulative sums of a distribution that gives everything to its
    second outcome, every sample of [0, 1) lands on index 1. *)
Lemma searchsorted_degenerate (u : Q) :
  (0 <= u)%Q -> (u < 1)%Q ->
  searchsorted_right
    (List.map (fun c : Q => (c / List.last (cumsum 0 [0%Q; 1%Q]) 1)%Q)
              (cumsum 0 [0%Q; 1%Q])) u = 1%nat.
Proof.
  intros H0 H1.
  change (List.map _ (cumsum 0 [0%Q; 1%Q])) with [0%Q; 1%Q].
  cbn [searchsorted_right].
  assert (Ha : Qle_bool 0 u = true) by now apply Qle_bool_iff.
  assert (Hb : Qle_bool 1 u = false).
  { destruct (Qle_bool 1 u) eqn:E; [|reflexivity].
    apply Qle_bool_iff in E. exfalso. now apply (Qlt_not_le u 1). }
  now rewrite Ha, Hb.
Qed.

(** C9 (counterexample).  Sampling the degenerate distribution moves the
    cursor of numpy's global generator: a sample is drawn although the
    outcome is certain. *)
Lemma sample_chance_degenerate_draws :
  np_random (snd (sample_chance [(0, 0%Q); (1, 1%Q)] (Toy.still 0 []))) <>
  np_random (Toy.still 0 []).
Proof.
  intros H. apply (f_equal cursor) in H. vm_compute in H. discriminate H.
Qed.

(** C9 (amended).  On the distribution [(A, 0.0), (B, 1.0)] the chance
    sampling answers [B] whatever the state of numpy's global generator is,
    and it draws one sample from that generator all the same. *)
Theorem sample_chance_degenerate (A B : Action) (w : World) :
  sample_chance [(A, 0%Q); (B, 1%Q)] w =
  (inr B, set_np_random w (advance (np_random w))).
Proof.
  unfold sample_chance. cbn [List.split]. unfold choice.
  change (length [A; B] =? 0)%nat with false.
  change (negb (length [A; B] =? length [0%Q; 1%Q])%nat) with false.
  change (negb (forallb (fun x : Q => Qle_bool 0 x) [0%Q; 1%Q])) with false.
  change (negb (Qeq_bool (Qsum [0%Q; 1%Q]) 1)) with false.
  cbv iota.
  pose proof (random_sample_range (np_random w)) as [H0 H1].
  destruct (random_sample (np_random w)) as [u rs'] eqn:Hs.
  cbn [fst] in H0, H1.
  rewrite (searchsorted_degenerate u H0 H1). cbn [nth_error].
  unfold random_sample in Hs. injection Hs as _ <-. reflexivity.
Qed.

(** ** Properties of the session controller *)

(** C10.  When the game has at most two players and both bots are built,
    [--num_games=0] means the loop body never runs: [game_num] keeps its
    initial value 0 and the session reports [game_num + 1 = 1] game played,
    no distinct game, and the untouched accumulators; the world is as the
    construction of the bots left it. *)
Theorem main_zero_games_reports_one {State} (game : Game State)
  (lib : BotLibrary State) (FLAGS : Flags) (argv : list string) (w : World)
  (fuel : nat) (b1 b2 : Bot State) (w1 w2 : World) :
  num_players game <= 2 ->
  _init_bot lib FLAGS (player1 FLAGS) 0 w = (inr b1, w1) ->
  _init_bot lib FLAGS (player2 FLAGS) 1 w1 = (inr b2, w2) ->
  num_games FLAGS = 0 ->
  main game lib FLAGS argv w fuel =
  Finished {| games_played := 1;
              distinct_games := 0;
              players := (player1 FLAGS, player2 FLAGS);
              wins := [0; 0];
              total_returns := [0%Q; 0%Q] |} w2.
Proof.
  intros Hn H1 H2 Hz. unfold main.
  destruct (Z.ltb_spec 2 (num_players game)) as [Hgt|_]; [lia|].
  rewrite H1, H2, Hz.
  cbn [range Z.to_nat seq List.map session_loop finish].
  reflexivity.
Qed.

(** C10 on a session of [Toy.abc] with no game to play. *)
Lemma main_zero_games_reports_one_witness :
  exists w',
    main Toy.abc (Toy.scripted Toy.abc) (Toy.flags "random" "mcts" 0 (Some 7))
         ["prog"] (Toy.still 0 []) 10 =
    Finished {| games_played := 1;
                distinct_games := 0;
                players := ("random", "mcts");
                wins := [0; 0];
                total_returns := [0%Q; 0%Q] |} w'.
Proof.
  eexists.
  eapply (main_zero_games_reports_one Toy.abc (Toy.scripted Toy.abc)
            (Toy.flags "random" "mcts" 0 (Some 7)) ["prog"] (Toy.still 0 []) 10).
  - vm_compute. discriminate.
  - vm_compute. reflexivity.
  - vm_compute. reflexivity.
  - reflexivity.
Defined.

(** ** The calls made during a game *)

Section Calls.

Context {State : Type}.
Variable game : Game State.
Variable FLAGS : Flags.

Lemma inform_all_events (bs : list (Bot State)) (s : State) (a : Action) :
  forall i,
    snd (inform_all game i bs s a) =
    List.map (fun j => Informed j s (current_player game s) a)
             (seq i (length bs)).
Proof.
  induction bs as [|b bs IH]; intros i; simpl; [reflexivity|].
  specialize (IH (S i)).
  destruct (inform_all game (S i) bs s a) as [rest' evs].
  simpl in *. now rewrite IH.
Qed.

Lemma inform_all_length (bs : list (Bot State)) (s : State) (a : Action) :
  forall i, length (fst (inform_all game i bs s a)) = length bs.
Proof.
  induction bs as [|b bs IH]; intros i; simpl; [reflexivity|].
  specialize (IH (S i)).
  destruct (inform_all game (S i) bs s a) as [rest' evs].
  simpl in *. now rewrite IH.
Qed.

Lemma inform_others_events (bs : list (Bot State)) (cp : Player) (s : State)
  (a : Action) :
  forall i,
    snd (inform_others i bs cp s a) =
    List.map (fun j => Informed j s cp a)
             (List.filter (fun j => negb (Z.of_nat j =? cp)) (seq i (length bs))).
Proof.
  induction bs as [|b bs IH]; intros i; simpl; [reflexivity|].
  specialize (IH (S i)).
  destruct (inform_others (S i) bs cp s a) as [rest' evs].
  destruct (Z.of_nat i =? cp); simpl in *; now rewrite IH.
Qed.

Lemma inform_others_length (bs : list (Bot State)) (cp : Player) (s : State)
  (a : Action) :
  forall i, length (fst (inform_others i bs cp s a)) = length bs.
Proof.
  induction bs as [|b bs IH]; intros i; simpl; [reflexivity|].
  specialize (IH (S i)).
  destruct (inform_others (S i) bs cp s a) as [rest' evs].
  destruct (Z.of_nat i =? cp); simpl in *; now rewrite IH.
Qed.

Lemma conclude_ply_calls (r : Run State) (a : Action) (str : string) :
  let r' := conclude_ply game r (current_player game (state r)) a str in
  trace r' = trace r ++ ply_calls game (length (bots r)) (state r) a /\
  length (bots r') = length (bots r).
Proof.
  unfold conclude_ply, ply_calls.
  pose proof (inform_others_events (bots r) (current_player game (state r))
                (state r) a 0%nat) as He.
  pose proof (inform_others_length (bots r) (current_player game (state r))
                (state r) a 0%nat) as Hl.
  destruct (inform_others 0 (bots r) (current_player game (state r))
              (state r) a) as [bots' evs].
  simpl in *. now rewrite He.
Qed.

Lemma dispatch_ply_calls (r : Run State) :
  match dispatch_ply game r with
  | inl (_, r') =>
    trace r' = trace r ++ [Classified (state r)] /\
    length (bots r') = length (bots r)
  | inr r' =>
    exists a,
      trace r' =
      trace r ++ Classified (state r) :: ply_calls game (length (bots r)) (state r) a /\
      length (bots r') = length (bots r)
  end.
Proof.
  unfold dispatch_ply.
  assert (Hc : forall (r1 : Run State) a str,
             state r1 = state r ->
             trace r1 = trace r ++ [Classified (state r)] ->
             length (bots r1) = length (bots r) ->
             exists a0,
               trace (conclude_ply game r1 (current_player game (state r1)) a str) =
               trace r ++ Classified (state r)
                 :: ply_calls game (length (bots r)) (state r) a0 /\
               length (bots (conclude_ply game r1
                               (current_player game (state r1)) a str)) =
               length (bots r)).
  { intros r1 a str Hs Ht Hl.
    destruct (conclude_ply_calls r1 a str) as [Htr Hlen].
    exists a. rewrite Htr, Hlen, Ht, Hs, Hl, <- app_assoc. now split. }
  cbn [classify state bots world trace].
  destruct (is_chance_node game (state r)).
  - destruct (sample_chance (chance_outcomes game (state r)) (world r))
      as [[e|a] w]; [now split|].
    apply (Hc (with_world (classify r) w)); reflexivity.
  - destruct (is_simultaneous_node game (state r)); [now split|].
    destruct (py_index (bots r) (current_player game (state r))) as [i|];
      [|now split].
    destruct (bots r !! i) as [bot|]; [|now split].
    destruct (is_HumanBot (class_of bot)).
    + destruct (input (world r)) as [[e|str] w]; [now split|].
      destruct (_get_action game (state r) str) as [a|]; [|now split].
      apply (Hc (with_world (classify r) w)); reflexivity.
    + destruct (bot_step bot (state r)) as [a bot'].
      apply (Hc (with_bots (classify r) (<[i:=bot']> (bots r)))); try reflexivity.
      cbn [with_bots bots classify]. apply length_insert.
Qed.

Lemma opening_loop_calls (labels : list string) :
  forall r : Run State,
    length (bots (run_of (opening_loop game labels r))) = length (bots r) /\
    exists calls,
      trace (run_of (opening_loop game labels r)) = trace r ++ calls /\
      forall tail,
        ply_shape game (length (bots r)) tail ->
        ply_shape game (length (bots r)) (calls ++ tail).
Proof.
  induction labels as [|l labels IH]; intros r; cbn [opening_loop].
  - split; [reflexivity|]. exists []. split; [now rewrite app_nil_r|auto].
  - destruct (_get_action game (state r) l) as [a|].
    + pose proof (inform_all_events (bots r) (state r) a 0%nat) as He.
      pose proof (inform_all_length (bots r) (state r) a 0%nat) as Hl.
      destruct (inform_all game 0 (bots r) (state r) a) as [bots' evs].
      cbn [fst snd] in He, Hl.
      match goal with |- context [opening_loop game labels ?r1] =>
        destruct (IH r1) as (Hlen & calls & Htr & Hshape) end.
      cbn [bots trace] in Hlen, Htr, Hshape. rewrite Hlen, Htr, Hl.
      split; [reflexivity|].
      exists ((evs ++ [Applied (state r) a]) ++ calls).
      split; [now rewrite <- !app_assoc|].
      intros tail Htail. rewrite Hl in Hshape.
      rewrite <- !app_assoc. cbn [app]. rewrite He.
      apply ps_forced. now apply Hshape.
    + cbn [run_of]. split; [reflexivity|].
      exists []. split; [now rewrite app_nil_r|auto].
Qed.

Lemma play_loop_calls (fuel : nat) :
  forall r : Run State,
    length (bots (run_of (play_loop game fuel r))) = length (bots r) /\
    exists calls,
      trace (run_of (play_loop game fuel r)) = trace r ++ calls /\
      ply_shape game (length (bots r)) calls.
Proof.
  assert (Hstop : forall r : Run State,
             length (bots r) = length (bots r) /\
             exists calls, trace r = trace r ++ calls /\
                           ply_shape game (length (bots r)) calls).
  { intros r. split; [reflexivity|]. exists []. split;
      [now rewrite app_nil_r|constructor]. }
  induction fuel as [|fuel IH]; intros r; cbn [play_loop];
    destruct (is_terminal game (state r)); cbn [run_of]; try apply Hstop.
  pose proof (dispatch_ply_calls r) as Hd.
  destruct (dispatch_ply game r) as [[e r']|r'].
  - destruct Hd as [Htr Hlen]. cbn [run_of]. split; [exact Hlen|].
    exists [Classified (state r)]. split; [exact Htr|constructor].
  - destruct Hd as (a & Htr & Hlen).
    destruct (IH r') as (Hlen' & calls & Htr' & Hshape).
    rewrite Hlen', Htr', Htr, Hlen. split; [reflexivity|].
    exists ((Classified (state r) :: ply_calls game (length (bots r)) (state r) a)
            ++ calls).
    split; [now rewrite <- app_assoc|].
    rewrite Hlen in Hshape. unfold ply_calls.
    cbn [app]. rewrite <- app_assoc. cbn [app].
    now apply ps_dispatched.
Qed.

(** The calls of a whole game, whatever its outcome. *)
Lemma play_game_shape (bs : list (Bot State)) (initial_actions : list string)
  (w : World) (fuel : nat) :
  ply_shape game (length bs)
    (trace (run_of (_play_game game FLAGS bs initial_actions w fuel))).
Proof.
  unfold _play_game.
  set (r0 := mkRun (new_initial_state game) bs [] [] w).
  assert (Hchoose : match choose_openings game FLAGS initial_actions r0 with
                    | inl (_, r) | inr (_, r) =>
                      trace r = [] /\ length (bots r) = length bs
                    end).
  { unfold choose_openings.
    destruct (random_first FLAGS); [|now split].
    destruct initial_actions; [|now split].
    destruct (random_choice _ _) as [[e|a] g]; now split. }
  destruct (choose_openings game FLAGS initial_actions r0) as [[e r]|[labels r]];
    destruct Hchoose as [Htr0 Hlen0].
  - cbn [run_of]. rewrite Htr0. constructor.
  - destruct (opening_loop_calls labels r) as (Hlen1 & calls1 & Htr1 & Hshape1).
    rewrite Htr0 in Htr1. cbn [app] in Htr1. rewrite Hlen0 in Hshape1, Hlen1.
    destruct (opening_loop game labels r) as [[] r1|e r1|r1];
      cbn [run_of] in *.
    + destruct (play_loop_calls fuel r1) as (Hlen2 & calls2 & Htr2 & Hshape2).
      rewrite Hlen1 in Hshape2. rewrite Htr1 in Htr2.
      assert (Hgoal : ply_shape game (length bs)
                        (trace (run_of (play_loop game fuel r1)))).
      { rewrite Htr2. now apply Hshape1. }
      destruct (play_loop game fuel r1) as [[] r2|e r2|r2]; exact Hgoal.
    + rewrite Htr1, <- (app_nil_r calls1). apply Hshape1. constructor.
    + rewrite Htr1, <- (app_nil_r calls1). apply Hshape1. constructor.
Qed.

End Calls.

Section Shapes.

Context {State : Type}.
Variable game : Game State.

Lemma informs_of_map (s : State) (p : Player) (a : Action) (l : list nat) :
  Forall (informs_of s a) (List.map (fun j => Informed j s p a) l).
Proof.
  induction l as [|j l IH]; simpl; constructor; [|exact IH].
  now exists j, p.
Qed.

Lemma told_map (i : nat) (s : State) (p : Player) (a : Action) (l : list nat) :
  told i (List.map (fun j => Informed j s p a) l) =
  length (List.filter (fun j => Nat.eqb j i) l).
Proof.
  unfold told. induction l as [|j l IH]; simpl; [reflexivity|].
  destruct (Nat.eqb j i); simpl; now rewrite IH.
Qed.

Lemma count_in_seq (i start len : nat) :
  length (List.filter (fun j => Nat.eqb j i) (seq start len)) =
  if ((start <=? i) && (i <? start + len))%nat then 1%nat else 0%nat.
Proof.
  revert start. induction len as [|len IH]; intros start;
    cbn [seq List.filter].
  - destruct (Nat.leb_spec start i), (Nat.ltb_spec i (start + 0)); cbn [andb length];
      try reflexivity; lia.
  - destruct (Nat.eqb_spec start i) as [Heq|Hne]; cbn [length]; rewrite IH;
      destruct (Nat.leb_spec (S start) i), (Nat.ltb_spec i (S start + len)),
               (Nat.leb_spec start i), (Nat.ltb_spec i (start + S len));
      cbn [andb]; try reflexivity; lia.
Qed.

Lemma count_in_filter (i : nat) (q : nat -> bool) (l : list nat) :
  length (List.filter (fun j => Nat.eqb j i) (List.filter q l)) =
  if q i then length (List.filter (fun j => Nat.eqb j i) l) else 0%nat.
Proof.
  induction l as [|j l IH]; simpl; [now destruct (q i)|].
  destruct (q j) eqn:Hq; simpl.
  - destruct (Nat.eqb_spec j i) as [->|Hne]; simpl.
    + rewrite IH, Hq. reflexivity.
    + exact IH.
  - destruct (Nat.eqb_spec j i) as [->|Hne]; simpl.
    + rewrite IH, Hq. reflexivity.
    + exact IH.
Qed.

Lemma shape_well_ordered (n : nat) (tr : list (event State)) :
  ply_shape game n tr -> well_ordered tr.
Proof.
  induction 1 as [|s a tr _ IH|s a tr _ IH|s].
  - constructor.
  - apply wo_forced; [apply informs_of_map|exact IH].
  - apply wo_dispatched; [apply informs_of_map|exact IH].
  - constructor.
Qed.

Lemma shape_recipients (n : nat) (tr : list (event State)) :
  ply_shape game n tr -> recipients_ok game n tr.
Proof.
  induction 1 as [|s a tr _ IH|s a tr _ IH|s].
  - constructor.
  - apply ro_forced; [apply informs_of_map| |exact IH].
    intros i. rewrite told_map, count_in_seq. reflexivity.
  - apply ro_dispatched; [apply informs_of_map| |exact IH].
    intros i. rewrite told_map, count_in_filter, count_in_seq.
    cbn [Nat.leb andb Nat.add].
    destruct (Z.of_nat i =? current_player game s), (i <? n)%nat; reflexivity.
  - constructor.
Qed.

End Shapes.

(** C1 (counterexample).  In the game [Toy.abc] replayed from the forced
    opening "A", the first call of the game tells bot 0 about the action in
    the initial state: nothing has been applied before it. *)
Lemma inform_comes_before_apply :
  ~ informs_follow_apply Toy.abc
      (trace (run_of (_play_game Toy.abc (Toy.flags "random" "random" 1 None)
                        [Toy.first_legal Toy.abc; Toy.first_legal Toy.abc]
                        ["A"] (Toy.still 0 []) 10))).
Proof.
  intros H.
  match type of H with informs_follow_apply _ ?t =>
    let v := eval vm_compute in t in change t with v in H end.
  match type of H with informs_follow_apply _ (Informed ?i ?s ?p ?a :: ?post) =>
    destruct (H [] i s p a post eq_refl) as (pre' & s0 & mid & Hpre & _) end.
  destruct pre'; discriminate Hpre.
Qed.

(** C1 (amended).  In every game, forced openings, chance plies and decided
    plies alike, the bots are told about a ply's action in the state the
    action is about to be applied to: the inform calls of a ply come after
    the classification of that state (in the dispatcher loop) and strictly
    before the application of the action, hence before the classification of
    the next ply. *)
Theorem informs_precede_apply {State} (game : Game State) (FLAGS : Flags)
  (bs : list (Bot State)) (initial_actions : list string) (w : World)
  (fuel : nat) :
  well_ordered (trace (run_of (_play_game game FLAGS bs initial_actions w fuel))).
Proof.
  apply (shape_well_ordered game (length bs)). apply play_game_shape.
Qed.

(** C2 (counterexample).  In the game [Toy.abc] replayed from the forced
    opening "A", which is seat 0's move, the bot of seat 0 is told about it
    too. *)
Lemma forced_opening_informs_actor :
  ~ spares_actor
      (trace (run_of (_play_game Toy.abc (Toy.flags "random" "random" 1 None)
                        [Toy.first_legal Toy.abc; Toy.first_legal Toy.abc]
                        ["A"] (Toy.still 0 []) 10))).
Proof.
  intros H.
  match type of H with spares_actor ?t =>
    let v := eval vm_compute in t in change t with v in H end.
  match type of H with spares_actor (Informed ?i ?s ?p ?a :: ?post) =>
    pose proof (H [] i s p a post eq_refl) as Hne end.
  apply Hne. reflexivity.
Qed.

(** C2 (amended).  For every ply applied by the dispatcher loop, chance
    outcomes included, [inform_action] is called exactly once on the bot of
    every seat except the one whose index is the current player (a chance
    node's player is no seat, so every bot is told) and not on that one; for
    every forced-opening ply it is called exactly once on the bot of every
    seat, the acting seat's included. *)
Theorem informs_reach_the_right_bots {State} (game : Game State)
  (FLAGS : Flags) (bs : list (Bot State)) (initial_actions : list string)
  (w : World) (fuel : nat) :
  recipients_ok game (length bs)
    (trace (run_of (_play_game game FLAGS bs initial_actions w fuel))).
Proof.
  apply shape_recipients. apply play_game_shape.
Qed.

(** ** Failures inside the dispatcher *)


(** C3 (counterexample).  A session of [Toy.abc] with a human on seat 0 who
    types "Z" and then "A": the session ends with [SystemExit] on "Z",
    before any game is recorded, and "A" is never read. *)
Lemma human_typo_ends_session :
  exists w',
    main Toy.abc (Toy.scripted Toy.abc) (Toy.flags "human" "random" 5 (Some 7))
         ["prog"] (Toy.still 0 [Line "Z"; Line "A"]) 10 =
    Crashed (SystemExit "Invalid move: Z") initial_locals w' /\
    stdin w' = [Line "A"].
Proof.
  eexists. split; [vm_compute; reflexivity|reflexivity].
Qed.

(** C3 (amended).  When it is the turn of a seat whose bot is a [HumanBot]
    and the line read from the terminal resolves to no legal action, the
    dispatcher raises [SystemExit] with the message "Invalid move: <line>":
    exactly that one line was read, nothing is asked again, and no action is
    told, recorded or applied.  The session's handler does not catch
    [SystemExit], so the session ends with it. *)
Theorem human_invalid_move_exits {State} (game : Game State) (FLAGS : Flags)
  (r : Run State) (fuel : nat) (i : nat) (bot : Bot State) (line : string)
  (rest : list tty_event) :
  is_terminal game (state r) = false ->
  is_chance_node game (state r) = false ->
  is_simultaneous_node game (state r) = false ->
  py_index (bots r) (current_player game (state r)) = Some i ->
  bots r !! i = Some bot ->
  is_HumanBot (class_of bot) = true ->
  stdin (world r) = Line line :: rest ->
  _get_action game (state r) line = None ->
  exists r',
    play_loop game (S fuel) r =
    Raised (SystemExit ("Invalid move: " +:+ line)) r' /\
    state r' = state r /\ history r' = history r /\ bots r' = bots r /\
    stdin (world r') = rest /\
    trace r' = trace r ++ [Classified (state r)] /\
    forall l, finish FLAGS (Stopped (SystemExit ("Invalid move: " +:+ line))
                              l (bots r') (world r')) =
              Crashed (SystemExit ("Invalid move: " +:+ line)) l (world r').
Proof.
  intros Ht Hc Hs Hi Hb Hh Hin Hg.
  exists (with_world (classify r) (set_stdin (world r) rest)).
  cbn [play_loop]. rewrite Ht. unfold dispatch_ply.
  cbn [classify state bots world]. rewrite Hc, Hs, Hi, Hb, Hh.
  unfold input. rewrite Hin, Hg. repeat split.
Qed.

(** C3 (amended) on [Toy.abc] with a human on seat 0 who types "Z". *)
Lemma human_invalid_move_exits_witness :
  exists r',
    play_loop Toy.abc 5
      (mkRun [] [HumanBot; Toy.first_legal Toy.abc] [] []
             (Toy.still 0 [Line "Z"; Line "A"])) =
    Raised (SystemExit ("Invalid move: " +:+ "Z")) r' /\
    state r' = [] /\ history r' = [] /\
    bots r' = [HumanBot; Toy.first_legal Toy.abc] /\
    stdin (world r') = [Line "A"] /\
    trace r' = [] ++ [Classified []] /\
    forall l, finish (Toy.flags "human" "random" 5 None)
                (Stopped (SystemExit ("Invalid move: " +:+ "Z"))
                         l (bots r') (world r')) =
              Crashed (SystemExit ("Invalid move: " +:+ "Z")) l (world r').
Proof.
  apply (human_invalid_move_exits Toy.abc (Toy.flags "human" "random" 5 None)
           (mkRun [] [HumanBot; Toy.first_legal Toy.abc] [] []
                  (Toy.still 0 [Line "Z"; Line "A"]))
           4 0%nat HumanBot "Z" [Line "A"]); reflexivity.
Defined.

(** ** Sessions that stop early *)

Lemma tally_in_range (returns : list Q) :
  forall (i : nat) (ors : list Q) (ows : list Z),
    (i + length returns <= length ors)%nat ->
    length ows = length ors ->
    exists ors' ows',
      tally i returns ors ows = (None, ors', ows') /\
      length ors' = length ors /\ length ows' = length ors.
Proof.
  induction returns as [|v returns IH]; intros i ors ows Hi Hlen;
    cbn [tally].
  - now exists ors, ows.
  - cbn [length] in Hi.
    destruct (lookup_lt_is_Some_2 ors i) as [x ->]; [lia|].
    destruct (negb (Qle_bool v 0)).
    + destruct (lookup_lt_is_Some_2 ows i) as [k ->]; [lia|].
      destruct (IH (S i) (<[i:=(x + v)%Q]> ors) (<[i:=k + 1]> ows))
        as (ors' & ows' & -> & H1 & H2).
      * rewrite length_insert. lia.
      * now rewrite !length_insert.
      * exists ors', ows'. rewrite length_insert in H1, H2. now split.
    + destruct (IH (S i) (<[i:=(x + v)%Q]> ors) ows)
        as (ors' & ows' & -> & H1 & H2).
      * rewrite length_insert. lia.
      * now rewrite length_insert.
      * exists ors', ows'. rewrite length_insert in H1, H2. now split.
Qed.

(** Recording a result of at most two scores in two-seat accumulators
    raises nothing and keeps the accumulators two seats wide. *)
Lemma record_game_in_range (l : Locals) (n : Z) (returns : list Q)
  (history : list string) :
  (length returns <= 2)%nat ->
  length (overall_returns l) = 2%nat ->
  length (overall_wins l) = 2%nat ->
  record_game l n returns history =
  (None, snd (record_game l n returns history)) /\
  length (overall_returns (snd (record_game l n returns history))) = 2%nat /\
  length (overall_wins (snd (record_game l n returns history))) = 2%nat /\
  game_num (snd (record_game l n returns history)) = n.
Proof.
  intros Hr Ho Hw. unfold record_game.
  destruct (tally_in_range returns 0 (overall_returns l) (overall_wins l))
    as (ors' & ows' & -> & H1 & H2); [simpl; lia|congruence|].
  cbn [snd overall_returns overall_wins game_num]. repeat split; congruence.
Qed.

Lemma record_game_ignores_game_num (l : Locals) (m n : Z) (returns : list Q)
  (history : list string) :
  record_game (with_game_num l m) n returns history =
  record_game l n returns history.
Proof. reflexivity. Qed.

(** C5.  A session of five games in which the first two games complete and
    the third, played with seat 1 handed to a [HumanBot], meets the end of
    the input: the session finishes with a report instead of an exception,
    the report counts 2 games played, and its statistics are those of the
    two completed games. *)
Theorem eof_in_third_game_reports_two {State} (game : Game State)
  (lib : BotLibrary State) (FLAGS : Flags) (argv : list string) (w : World)
  (fuel : nat) (b1 b2 : Bot State) (w1 w2 : World)
  (ret0 ret1 : list Q) (h0 h1 : list string) (r0 r1 r2 : Run State) :
  num_players game <= 2 ->
  num_games FLAGS = 5 ->
  _init_bot lib FLAGS (player1 FLAGS) 0 w = (inr b1, w1) ->
  _init_bot lib FLAGS (player2 FLAGS) 1 w1 = (inr b2, w2) ->
  _play_game game FLAGS [b1; b2] (List.tl argv) w2 fuel =
    Returned (ret0, h0) r0 ->
  (length ret0 <= 2)%nat ->
  _play_game game FLAGS (bots r0) (List.tl argv) (world r0) fuel =
    Returned (ret1, h1) r1 ->
  (length ret1 <= 2)%nat ->
  _play_game game FLAGS (<[1%nat := HumanBot]> (bots r1)) (List.tl argv)
             (world r1) fuel = Raised EOFError r2 ->
  let l1 := snd (record_game initial_locals 0 ret0 h0) in
  let l2 := snd (record_game l1 1 ret1 h1) in
  main game lib FLAGS argv w fuel =
  Finished {| games_played := 2;
              distinct_games := size (histories l2);
              players := (player1 FLAGS, player2 FLAGS);
              wins := overall_wins l2;
              total_returns := overall_returns l2 |} (world r2).
Proof.
  intros Hn Hg Hb1 Hb2 Hp0 Hl0 Hp1 Hl1 Hp2 l1 l2.
  unfold main. destruct (Z.ltb_spec 2 (num_players game)) as [Hgt|_]; [lia|].
  rewrite Hb1, Hb2, Hg. change (range 5) with [0; 1; 2; 3; 4].
  destruct (record_game_in_range initial_locals 0 ret0 h0 Hl0 eq_refl eq_refl)
    as (E0 & A0 & B0 & _).
  fold l1 in E0, A0, B0.
  destruct (record_game_in_range l1 1 ret1 h1 Hl1 A0 B0) as (E1 & _).
  fold l2 in E1.
  cbn [session_loop]. change (0 =? 2) with false. cbv iota.
  rewrite Hp0, record_game_ignores_game_num, E0.
  change (1 =? 2) with false. cbv iota.
  rewrite Hp1, record_game_ignores_game_num, E1.
  change (2 =? 2) with true. cbv iota. rewrite Hp2.
  cbn [finish]. unfold report_of, with_game_num.
  cbn [game_num histories overall_wins overall_returns].
  reflexivity.
Qed.

(** C5 on five games of [Toy.abc] with scripted bots and a closed input:
    seat 0 wins the two completed games. *)
Lemma eof_in_third_game_reports_two_witness :
  exists w',
    main Toy.abc (Toy.scripted Toy.abc)
         (Toy.flags "random" "random" 5 (Some 7)) ["prog"] (Toy.still 0 []) 10 =
    Finished {| games_played := 2;
                distinct_games := 1;
                players := ("random", "random");
                wins := [2; 0];
                total_returns := [2%Q; (-2)%Q] |} w'.
Proof.
  eexists.
  etransitivity.
  - eapply (eof_in_third_game_reports_two Toy.abc (Toy.scripted Toy.abc)
              (Toy.flags "random" "random" 5 (Some 7)) ["prog"]
              (Toy.still 0 []) 10).
    + vm_compute. discriminate.
    + reflexivity.
    + vm_compute. reflexivity.
    + vm_compute. reflexivity.
    + vm_compute. reflexivity.
    + simpl. lia.
    + vm_compute. reflexivity.
    + simpl. lia.
    + vm_compute. reflexivity.
  - vm_compute. reflexivity.
Defined.

(** ** Forced openings that do not resolve *)

Section Openings.

Context {State : Type}.
Variable game : Game State.
Variable FLAGS : Flags.

(** The replay of the openings stops at the first label that does not
    resolve, in the state reached by the labels before it. *)
Lemma opening_loop_unresolvable (l : string) (remaining : list string) (s : State) :
  forall (resolved : list string) (r : Run State),
    replay game (state r) resolved = Some s ->
    _get_action game s l = None ->
    exists r',
      opening_loop game (resolved ++ l :: remaining) r =
      Raised (SystemExit ("Invalid action: " +:+ l)) r' /\
      state r' = s /\ history r' = history r ++ resolved /\ world r' = world r.
Proof.
  intros resolved. induction resolved as [|p resolved IH]; intros r Hreplay Hnone.
  - injection Hreplay as <-. exists r. cbn [app opening_loop].
    rewrite Hnone. rewrite app_nil_r. now repeat split.
  - cbn [replay] in Hreplay. cbn [app opening_loop].
    destruct (_get_action game (state r) p) as [a|]; [|discriminate].
    destruct (inform_all game 0 (bots r) (state r) a) as [bots' evs].
    match goal with |- context [opening_loop game _ ?r1] =>
      destruct (IH r1 Hreplay Hnone) as (r' & -> & Hs & Hh & Hw) end.
    exists r'. cbn [history world] in Hh, Hw.
    rewrite Hh, <- app_assoc. now repeat split.
Qed.

Lemma range_positive (n : Z) :
  0 < n -> exists rest, range n = 0 :: rest.
Proof.
  intros Hn. unfold range.
  destruct (Z.to_nat n) as [|k] eqn:Hk; [lia|].
  cbn [seq List.map]. now eexists.
Qed.

End Openings.

(** C6.  When the labels given on the command line are replayed and one of
    them resolves to no legal action of the state reached by the labels
    before it, every game stops there with [SystemExit] and the message
    "Invalid action: <label>": the state is the one the label was looked up
    in (the ply is not applied), the history holds the labels before it and
    nothing was read or drawn.  When the game has at most two players, both
    bots are built and the session has at least one game to play, the
    session ends with that exception in its first game, which its handler
    does not catch: nothing is retried, the accumulators still hold zero
    games (no history, no score, no win) and the world is as the
    construction of the bots left it. *)
Theorem unresolvable_opening_ends_session {State} (game : Game State)
  (lib : BotLibrary State) (FLAGS : Flags) (argv : list string) (w : World)
  (fuel : nat) (resolved : list string) (l : string) (remaining : list string)
  (s : State) (b1 b2 : Bot State) (w1 w2 : World) :
  num_players game <= 2 ->
  _init_bot lib FLAGS (player1 FLAGS) 0 w = (inr b1, w1) ->
  _init_bot lib FLAGS (player2 FLAGS) 1 w1 = (inr b2, w2) ->
  0 < num_games FLAGS ->
  random_first FLAGS = false ->
  List.tl argv = resolved ++ l :: remaining ->
  replay game (new_initial_state game) resolved = Some s ->
  _get_action game s l = None ->
  (forall bs w0, exists r',
     _play_game game FLAGS bs (List.tl argv) w0 fuel =
     Raised (SystemExit ("Invalid action: " +:+ l)) r' /\
     state r' = s /\ history r' = resolved /\ world r' = w0) /\
  (main game lib FLAGS argv w fuel =
   Crashed (SystemExit ("Invalid action: " +:+ l)) initial_locals w2 /\
   histories initial_locals = ∅ /\
   overall_returns initial_locals = [0%Q; 0%Q] /\
   overall_wins initial_locals = [0; 0]).
Proof.
  intros Hn H1 H2 Hg Hrf Hargv Hreplay Hnone.
  assert (Hgame : forall bs w0, exists r',
             _play_game game FLAGS bs (List.tl argv) w0 fuel =
             Raised (SystemExit ("Invalid action: " +:+ l)) r' /\
             state r' = s /\ history r' = resolved /\ world r' = w0).
  { intros bs w0. unfold _play_game, choose_openings. rewrite Hrf, Hargv.
    destruct (opening_loop_unresolvable game l remaining s resolved
                (mkRun (new_initial_state game) bs [] [] w0) Hreplay Hnone)
      as (r' & -> & Hs & Hh & Hw).
    exists r'. now repeat split. }
  split; [exact Hgame|].
  unfold main.
  destruct (Z.ltb_spec 2 (num_players game)) as [Hgt|_]; [lia|].
  rewrite H1, H2.
  destruct (range_positive _ Hg) as [rest ->].
  cbn [session_loop]. change (0 =? 2) with false. cbv iota.
  destruct (Hgame [b1; b2] w2) as (r' & -> & _ & _ & Hw).
  cbn [finish]. rewrite Hw. now repeat split.
Qed.

(** C6 on [Toy.abc] with the openings "B", "Z", "A": "Z" is no label of the
    state reached by "B". *)
Lemma unresolvable_opening_ends_session_witness :
  (forall bs w0, exists r',
     _play_game Toy.abc (Toy.flags "random" "random" 3 None) bs
                (List.tl ["prog"; "B"; "Z"; "A"]) w0 10 =
     Raised (SystemExit ("Invalid action: " +:+ "Z")) r' /\
     state r' = [1] /\ history r' = ["B"] /\ world r' = w0) /\
  (exists w',
     main Toy.abc (Toy.scripted Toy.abc) (Toy.flags "random" "random" 3 None)
          ["prog"; "B"; "Z"; "A"] (Toy.still 0 []) 10 =
     Crashed (SystemExit ("Invalid action: " +:+ "Z")) initial_locals w' /\
     histories initial_locals = ∅ /\
     overall_returns initial_locals = [0%Q; 0%Q] /\
     overall_wins initial_locals = [0; 0]).
Proof.
  eassert (H : _ /\ _).
  { eapply (unresolvable_opening_ends_session Toy.abc (Toy.scripted Toy.abc)
              (Toy.flags "random" "random" 3 None) ["prog"; "B"; "Z"; "A"]
              (Toy.still 0 []) 10 ["B"] "Z" ["A"] [1]).
    - vm_compute. discriminate.
    - vm_compute. reflexivity.
    - vm_compute. reflexivity.
    - reflexivity.
    - reflexivity.
    - reflexivity.
    - reflexivity.
    - reflexivity. }
  destruct H as [Hgame Hmain].
  split; [exact Hgame|eexists; exact Hmain].
Defined.

(** ** The seed and the chance nodes *)

(** C4.  Two sessions of one game of [Toy.coin] with the same [--seed=7],
    the same bots and the same input, started with numpy's global generator
    in two different states (the script never seeds it): the coin falls on
    "0" in one and on "1" in the other, and the reported scores differ. *)
Theorem same_seed_different_chance_outcome :
  exists rep w rep' w',
    main Toy.coin (Toy.scripted Toy.coin)
         (Toy.flags "random" "random" 1 (Some 7)) ["prog"]
         (Toy.still 0 []) 10 = Finished rep w /\
    main Toy.coin (Toy.scripted Toy.coin)
         (Toy.flags "random" "random" 1 (Some 7)) ["prog"]
         (Toy.still (2 ^ 52) []) 10 = Finished rep' w' /\
    total_returns rep = [1%Q; (-1)%Q] /\
    total_returns rep' = [(-1)%Q; 1%Q] /\
    wins rep = [1; 0] /\ wins rep' = [0; 1] /\
    history (run_of (_play_game Toy.coin (Toy.flags "random" "random" 1 (Some 7))
                       [Toy.nth_legal Toy.coin 0; Toy.nth_legal Toy.coin 1] []
                       (Toy.still 0 []) 10)) = ["0"] /\
    history (run_of (_play_game Toy.coin (Toy.flags "random" "random" 1 (Some 7))
                       [Toy.nth_legal Toy.coin 0; Toy.nth_legal Toy.coin 1] []
                       (Toy.still (2 ^ 52) []) 10)) = ["1"].
Proof.
  do 4 eexists. split; [vm_compute; reflexivity|].
  split; [vm_compute; reflexivity|]. repeat split.
Qed.

(** ** Where an exit on an invalid opening can come from *)

Section Provenance.

Context {State : Type}.
Variable game : Game State.
Variable FLAGS : Flags.

Lemma choice_raises (rs rs' : RandomState) (a : list Action) (p : list Q)
  (e : exn) :
  choice rs a p = (inl e, rs') -> forall lab, e <> SystemExit ("Invalid action: " +:+ lab).
Proof.
  unfold choice. intros H lab.
  repeat match type of H with
         | (if ?c then _ else _) = _ => destruct c
         end; try (injection H as <- _; discriminate).
  destruct (random_sample rs) as [u rs1].
  destruct (nth_error a _); [discriminate|].
  injection H as <- _. discriminate.
Qed.

Lemma dispatch_ply_raises (r r' : Run State) (e : exn) :
  dispatch_ply game r = inl (e, r') -> forall lab, e <> SystemExit ("Invalid action: " +:+ lab).
Proof.
  unfold dispatch_ply. intros H lab.
  destruct (is_chance_node game (state (classify r))).
  - unfold sample_chance in H.
    destruct (chance_outcomes game (state (classify r))) as [|o os].
    + injection H as <- _. discriminate.
    + destruct (List.split (o :: os)) as [al pl].
      destruct (choice (np_random (world (classify r))) al pl) as [[e'|a] rs]
        eqn:Hch; [|discriminate].
      injection H as <- _. exact (choice_raises _ _ _ _ _ Hch lab).
  - destruct (is_simultaneous_node game (state (classify r))).
    + injection H as <- _. discriminate.
    + destruct (py_index _ _) as [i|]; [|injection H as <- _; discriminate].
      destruct (bots (classify r) !! i) as [bot|];
        [|injection H as <- _; discriminate].
      destruct (is_HumanBot (class_of bot)).
      * unfold input in H.
        destruct (stdin (world (classify r))) as [|[str|] rest].
        -- injection H as <- _. discriminate.
        -- destruct (_get_action game (state (classify r)) str);
             [discriminate|].
           injection H as <- _. cbn. discriminate.
        -- injection H as <- _. discriminate.
      * destruct (bot_step bot (state (classify r))). discriminate.
Qed.

Lemma play_loop_raises (fuel : nat) :
  forall (r r' : Run State) (e : exn),
    play_loop game fuel r = Raised e r' -> forall lab, e <> SystemExit ("Invalid action: " +:+ lab).
Proof.
  induction fuel as [|fuel IH]; intros r r' e H lab; cbn [play_loop] in H;
    destruct (is_terminal game (state r)); try discriminate.
  destruct (dispatch_ply game r) as [[e1 r1]|r1] eqn:Hd.
  - injection H as <- _. exact (dispatch_ply_raises _ _ _ Hd lab).
  - exact (IH _ _ _ H lab).
Qed.

(** The replay of the openings returns or raises, and which of the two is
    decided by the labels and the state alone. *)
Lemma opening_loop_replay (labels : list string) :
  forall r : Run State,
    match opening_loop game labels r with
    | Returned _ r' => replay game (state r) labels = Some (state r')
    | Raised e _ =>
      replay game (state r) labels = None /\ exists lab, e = SystemExit ("Invalid action: " +:+ lab)
    | OutOfFuel _ => False
    end.
Proof.
  induction labels as [|l labels IH]; intros r; cbn [opening_loop replay].
  - reflexivity.
  - destruct (_get_action game (state r) l) as [a|]; [|eauto].
    destruct (inform_all game 0 (bots r) (state r) a) as [bots' evs].
    match goal with |- context [opening_loop game labels ?r1] =>
      exact (IH r1) end.
Qed.

Lemma get_action_own_label (s : State) (a : Action) :
  In a (legal_actions game s) -> _get_action game s (label_of game s a) <> None.
Proof.
  unfold _get_action. intros Hin Hnone.
  apply (find_none _ _ Hnone) in Hin. now rewrite String.eqb_refl in Hin.
Qed.

(** A game ends on an invalid opening only when the openings come from the
    command line and their replay fails. *)
Lemma play_game_invalid_action (bs : list (Bot State)) (labels : list string)
  (w : World) (fuel : nat) (lab : string) (r' : Run State) :
  _play_game game FLAGS bs labels w fuel = Raised (SystemExit ("Invalid action: " +:+ lab)) r' ->
  random_first FLAGS = false /\
  replay game (new_initial_state game) labels = None.
Proof.
  unfold _play_game, choose_openings.
  set (r0 := mkRun (new_initial_state game) bs [] [] w).
  assert (Hloop : forall labels' r,
             match opening_loop game labels' r with
             | Raised e r => Raised e r
             | OutOfFuel r => OutOfFuel r
             | Returned _ r =>
               match play_loop game fuel r with
               | Raised e r => Raised e r
               | OutOfFuel r => OutOfFuel r
               | Returned _ r =>
                 Returned (returns game (state r), history r)
                          (with_bots r (List.map bot_restart (bots r)))
               end
             end = Raised (SystemExit ("Invalid action: " +:+ lab)) r' ->
             replay game (state r) labels' = None).
  { intros labels' r H. pose proof (opening_loop_replay labels' r) as Ho.
    destruct (opening_loop game labels' r) as [[] r1|e r1|r1];
      [|tauto|contradiction].
    destruct (play_loop game fuel r1) as [[] r2|e r2|r2] eqn:Hp;
      try discriminate.
    injection H as -> _. exfalso. exact (play_loop_raises _ _ _ _ Hp lab eq_refl). }
  destruct (random_first FLAGS).
  - destruct labels as [|l labels]; [|discriminate].
    unfold random_choice.
    destruct (legal_actions game (state r0)) as [|a0 acts] eqn:Hacts;
      [discriminate|].
    destruct (nth_error (a0 :: acts) _) as [a|] eqn:Hnth; [|discriminate].
    intros H. apply Hloop in H. exfalso.
    cbn [replay with_world state] in H.
    apply nth_error_In in Hnth. rewrite <- Hacts in Hnth.
    pose proof (get_action_own_label _ _ Hnth) as Hown.
    destruct (_get_action game (state r0) (label_of game (state r0) a));
      [discriminate|contradiction].
  - intros H. split; [reflexivity|]. exact (Hloop labels r0 H).
Qed.

Lemma play_game_replay_fails (bs : list (Bot State)) (labels : list string)
  (w : World) (fuel : nat) :
  random_first FLAGS = false ->
  replay game (new_initial_state game) labels = None ->
  exists lab r', _play_game game FLAGS bs labels w fuel =
                 Raised (SystemExit ("Invalid action: " +:+ lab)) r'.
Proof.
  intros Hrf Hreplay. unfold _play_game, choose_openings. rewrite Hrf.
  set (r0 := mkRun (new_initial_state game) bs [] [] w).
  pose proof (opening_loop_replay labels r0) as Ho.
  destruct (opening_loop game labels r0) as [[] r1|e r1|r1].
  - cbn [state r0] in Ho. congruence.
  - destruct Ho as [_ [lab ->]]. eauto.
  - contradiction.
Qed.

Lemma tally_raises (returns : list Q) :
  forall i ors ows e ors' ows',
    tally i returns ors ows = (Some e, ors', ows') -> e = IndexError.
Proof.
  induction returns as [|v returns IH]; intros i ors ows e ors' ows' H;
    cbn [tally] in H; [discriminate|].
  destruct (ors !! i); [|congruence].
  destruct (negb (Qle_bool v 0)); [|eauto].
  destruct (ows !! i); [eauto|congruence].
Qed.

End Provenance.

Section SessionProvenance.

Context {State : Type}.
Variable game : Game State.
Variable lib : BotLibrary State.
Variable FLAGS : Flags.

(** What stops the session loop is an exception of a game or the
    [IndexError] of the accumulators. *)
Lemma session_stop_cause (labels : list string) (fuel : nat) (e : exn)
  (l' : Locals) (bs' : list (Bot State)) (w' : World) (games : list Z) :
  forall bs l w,
    session_loop game FLAGS games bs l labels w fuel = Stopped e l' bs' w' ->
    e = IndexError \/
    exists bs0 w0 r, _play_game game FLAGS bs0 labels w0 fuel = Raised e r.
Proof.
  induction games as [|n games IH]; intros bs l w H; cbn [session_loop] in H;
    [discriminate|].
  destruct (_play_game game FLAGS _ labels w fuel) as [[ret h] r|e1 r|r] eqn:Hp.
  - unfold record_game in H.
    destruct (tally 0 ret _ _) as [[[e1|] ors] ows] eqn:Ht.
    + injection H as <- _ _ _. left. exact (tally_raises _ _ _ _ _ _ _ Ht).
    + exact (IH _ _ _ H).
  - injection H as <- _ _ _. right. eauto.
  - discriminate.
Qed.

(** A session stopped by an invalid opening stopped in its first game: the
    accumulators are those it started with. *)
Lemma session_invalid_action (labels : list string) (fuel : nat) (lab : string)
  (l l' : Locals) (bs bs' : list (Bot State)) (w w' : World) (games : list Z) :
  session_loop game FLAGS games bs l labels w fuel =
    Stopped (SystemExit ("Invalid action: " +:+ lab)) l' bs' w' ->
  histories l' = histories l /\ overall_returns l' = overall_returns l /\
  overall_wins l' = overall_wins l.
Proof.
  intros H.
  destruct (session_stop_cause _ _ _ _ _ _ _ _ _ _ H)
    as [Hidx|(bs0 & w0 & r & Hraise)]; [discriminate|].
  destruct (play_game_invalid_action game FLAGS _ _ _ _ _ _ Hraise)
    as [Hrf Hreplay].
  destruct games as [|n games]; cbn [session_loop] in H; [discriminate|].
  destruct (play_game_replay_fails game FLAGS
              (if n =? 2 then <[1%nat:=HumanBot]> bs else bs) labels w fuel
              Hrf Hreplay) as (lab1 & r1 & Hfirst).
  rewrite Hfirst in H. injection H as _ <- _ _. now repeat split.
Qed.

End SessionProvenance.

(** Whenever the session ends with the exit of an unresolvable opening, no
    game has been recorded: the replay of the openings depends on the labels
    and the initial state only, so it fails in the first game or never. *)
Theorem invalid_action_exit_records_nothing {State} (game : Game State)
  (lib : BotLibrary State) (FLAGS : Flags) (argv : list string) (w : World)
  (fuel : nat) (lab : string) (loc : Locals) (w' : World) :
  main game lib FLAGS argv w fuel =
    Crashed (SystemExit ("Invalid action: " +:+ lab)) loc w' ->
  histories loc = ∅ /\ overall_returns loc = [0%Q; 0%Q] /\
  overall_wins loc = [0; 0].
Proof.
  unfold main. intros H.
  destruct (2 <? num_players game); [discriminate H|].
  destruct (_init_bot lib FLAGS (player1 FLAGS) 0 w) as [[e1|b1] w1];
    [injection H as _ <- _; now repeat split|].
  destruct (_init_bot lib FLAGS (player2 FLAGS) 1 w1) as [[e2|b2] w2];
    [injection H as _ <- _; now repeat split|].
  destruct (session_loop game FLAGS _ _ _ _ _ _) as [l0 bs0 w0|e0 l0 bs0 w0|l0 bs0 w0]
    eqn:Hs; cbn [finish] in H; try discriminate.
  destruct e0; try discriminate. injection H as -> -> _.
  exact (session_invalid_action game FLAGS _ _ _ _ _ _ _ _ _ _ Hs).
Qed.

(** The exit of [Toy.abc] on the openings "B", "Z", "A" leaves the
    accumulators empty. *)
Lemma invalid_action_exit_records_nothing_witness :
  histories initial_locals = ∅ /\ overall_returns initial_locals = [0%Q; 0%Q] /\
  overall_wins initial_locals = [0; 0].
Proof.
  eapply (invalid_action_exit_records_nothing Toy.abc (Toy.scripted Toy.abc)
            (Toy.flags "random" "random" 3 None) ["prog"; "B"; "Z"; "A"]
            (Toy.still 0 []) 10 "Z" initial_locals).
  vm_compute. reflexivity.
Defined.

(** ** More on the action codec *)

(** X2.  Encoding then decoding: the label of a legal action resolves to a
    legal action that carries the same label, and to the action itself when no
    other legal action carries that label. *)
Theorem label_round_trip {State} (game : Game State) (s : State) (a : Action) :
  In a (legal_actions game s) ->
  exists a',
    _get_action game s (label_of game s a) = Some a' /\
    In a' (legal_actions game s) /\
    label_of game s a' = label_of game s a /\
    ((forall b, In b (legal_actions game s) ->
                label_of game s b = label_of game s a -> b = a) -> a' = a).
Proof.
  intros Hin.
  destruct (_get_action game s (label_of game s a)) as [a'|] eqn:Hget.
  - unfold _get_action in Hget. apply find_some in Hget as [Hin' Heq].
    apply String.eqb_eq in Heq. exists a'. repeat split; auto.
  - exfalso. exact (get_action_own_label game s a Hin Hget).
Qed.

(** X2 on the action "B" of the initial state of [Toy.abc]. *)
Lemma label_round_trip_witness :
  exists a',
    _get_action Toy.abc [] (label_of Toy.abc [] 1) = Some a' /\
    In a' (legal_actions Toy.abc []) /\
    label_of Toy.abc [] a' = label_of Toy.abc [] 1 /\
    ((forall b, In b (legal_actions Toy.abc []) ->
                label_of Toy.abc [] b = label_of Toy.abc [] 1 -> b = 1) ->
     a' = 1).
Proof.
  apply (label_round_trip Toy.abc [] 1). simpl. right. left. reflexivity.
Defined.

(** ** Invariants of one game *)

Section GameInvariants.

Context {State : Type}.
Variable game : Game State.
Variable FLAGS : Flags.

Lemma applied_labels_app (tr1 tr2 : list (event State)) :
  applied_labels game (tr1 ++ tr2) =
  applied_labels game tr1 ++ applied_labels game tr2.
Proof.
  induction tr1 as [|e tr1 IH]; cbn [app applied_labels]; [reflexivity|].
  destruct e; cbn [app]; now rewrite IH.
Qed.

Lemma applied_labels_informs (s : State) (p : Player) (a : Action)
  (l : list nat) :
  applied_labels game (List.map (fun j => Informed j s p a) l) = [].
Proof. induction l as [|j l IH]; [reflexivity|exact IH]. Qed.

Lemma get_action_sound (s : State) (str : string) (a : Action) :
  _get_action game s str = Some a ->
  In a (legal_actions game s) /\ label_of game s a = str.
Proof.
  unfold _get_action. intros H. apply find_some in H as [Hin Heq].
  apply String.eqb_eq in Heq. now split.
Qed.

Lemma play_loop_returns_terminal (fuel : nat) :
  forall (r r' : Run State) (u : unit),
    play_loop game fuel r = Returned u r' -> is_terminal game (state r') = true.
Proof.
  induction fuel as [|fuel IH]; intros r r' u H; cbn [play_loop] in H;
    destruct (is_terminal game (state r)) eqn:Ht; try discriminate;
    try (injection H as _ <-; exact Ht).
  destruct (dispatch_ply game r) as [[e r1]|r1]; [discriminate|].
  exact (IH _ _ _ H).
Qed.

Lemma play_loop_out_of_fuel (fuel : nat) :
  forall (r r' : Run State),
    play_loop game fuel r = OutOfFuel r' -> is_terminal game (state r') = false.
Proof.
  induction fuel as [|fuel IH]; intros r r' H; cbn [play_loop] in H;
    destruct (is_terminal game (state r)) eqn:Ht; try discriminate;
    try (injection H as <-; exact Ht).
  destruct (dispatch_ply game r) as [[e r1]|r1]; [discriminate|].
  exact (IH _ _ H).
Qed.

End GameInvariants.

(** X3.  A game hands back a result only from a terminal state: the scores
    are the engine's returns of that state and the history is the one the
    game accumulated; every bot has then been restarted. *)
Theorem result_comes_from_terminal_state {State} (game : Game State)
  (FLAGS : Flags) (bs : list (Bot State)) (initial_actions : list string)
  (w : World) (fuel : nat) (scores : list Q) (h : list string)
  (r : Run State) :
  _play_game game FLAGS bs initial_actions w fuel = Returned (scores, h) r ->
  is_terminal game (state r) = true /\
  scores = returns game (state r) /\
  h = history r /\
  exists bs', bots r = List.map bot_restart bs' /\ length bs' = length bs.
Proof.
  unfold _play_game. intros H.
  set (r0 := mkRun (new_initial_state game) bs [] [] w) in H.
  assert (Hchoose : match choose_openings game FLAGS initial_actions r0 with
                    | inl (_, r) | inr (_, r) => length (bots r) = length bs
                    end).
  { unfold choose_openings.
    destruct (random_first FLAGS); [|reflexivity].
    destruct initial_actions; [|reflexivity].
    destruct (random_choice _ _) as [[e|a] g]; reflexivity. }
  destruct (choose_openings game FLAGS initial_actions r0) as [[e r1]|[labels r1]];
    [discriminate|].
  destruct (opening_loop_calls game labels r1) as [Hlen1 _].
  destruct (opening_loop game labels r1) as [[] r2|e r2|r2]; try discriminate.
  destruct (play_loop_calls game fuel r2) as [Hlen2 _].
  destruct (play_loop game fuel r2) as [[] r3|e r3|r3] eqn:Hp; try discriminate.
  injection H as <- <- <-. cbn [run_of] in *.
  split; [exact (play_loop_returns_terminal game _ _ _ _ Hp)|].
  repeat split. exists (bots r3). split; [reflexivity|congruence].
Qed.

(** X3 on a game of [Toy.abc] between two scripted bots. *)
Lemma result_comes_from_terminal_state_witness :
  is_terminal Toy.abc [0; 0] = true /\
  [0%Q; 0%Q] = returns Toy.abc [0; 0] /\
  ["A"; "A"] = ["A"; "A"] /\
  exists bs',
    [Toy.first_legal Toy.abc; Toy.first_legal Toy.abc] = List.map bot_restart bs' /\
    length bs' = length [Toy.first_legal Toy.abc; Toy.first_legal Toy.abc].
Proof.
  apply (result_comes_from_terminal_state Toy.abc
           (Toy.flags "mcts" "mcts" 1 None)
           [Toy.first_legal Toy.abc; Toy.first_legal Toy.abc] []
           (Toy.still 0 []) 5 [0%Q; 0%Q] ["A"; "A"]
           (mkRun [0; 0] [Toy.first_legal Toy.abc; Toy.first_legal Toy.abc]
                  ["A"; "A"]
                  [Classified []; Informed 1 [] 0 0; Applied [] 0;
                   Classified [0]; Informed 0 [0] 1 0; Applied [0] 0]
                  (Toy.still 0 []))).
  vm_compute. reflexivity.
Defined.

Section HistoryInvariant.

Context {State : Type}.
Variable game : Game State.
Variable FLAGS : Flags.

Lemma conclude_ply_history (r : Run State) (a : Action) :
  history_ok game r ->
  history_ok game (conclude_ply game r (current_player game (state r)) a
                (label_of game (state r) a)).
Proof.
  unfold history_ok, conclude_ply. intros H.
  pose proof (inform_others_events (bots r) (current_player game (state r))
                (state r) a 0%nat) as He.
  destruct (inform_others 0 (bots r) (current_player game (state r))
              (state r) a) as [bots' evs].
  cbn [snd] in He. cbn [history trace]. subst evs.
  rewrite !applied_labels_app, applied_labels_informs, <- H. reflexivity.
Qed.

Lemma dispatch_ply_history (r : Run State) :
  history_ok game r ->
  match dispatch_ply game r with
  | inl (_, r') | inr r' => history_ok game r'
  end.
Proof.
  intros H.
  assert (Hc : history_ok game (classify r)).
  { unfold history_ok, classify. cbn [history trace].
    rewrite applied_labels_app. cbn [applied_labels].
    now rewrite app_nil_r. }
  unfold dispatch_ply.
  destruct (is_chance_node game (state (classify r))).
  - destruct (sample_chance _ _) as [[e|a] w]; [exact Hc|].
    apply (conclude_ply_history (with_world (classify r) w) a). exact Hc.
  - destruct (is_simultaneous_node game (state (classify r))); [exact Hc|].
    destruct (py_index _ _) as [i|]; [|exact Hc].
    destruct (bots (classify r) !! i) as [bot|]; [|exact Hc].
    destruct (is_HumanBot (class_of bot)).
    + destruct (input (world (classify r))) as [[e|str] w]; [exact Hc|].
      destruct (_get_action game (state (classify r)) str) as [a|] eqn:Hg;
        [|exact Hc].
      apply get_action_sound in Hg as [_ <-].
      apply (conclude_ply_history (with_world (classify r) w) a). exact Hc.
    + destruct (bot_step bot (state (classify r))) as [a bot'].
      apply (conclude_ply_history
               (with_bots (classify r) (<[i:=bot']> (bots (classify r)))) a).
      exact Hc.
Qed.

Lemma play_loop_history (fuel : nat) :
  forall r : Run State,
    history_ok game r -> history_ok game (run_of (play_loop game fuel r)).
Proof.
  induction fuel as [|fuel IH]; intros r H; cbn [play_loop];
    destruct (is_terminal game (state r)); cbn [run_of]; try exact H.
  pose proof (dispatch_ply_history r H) as Hd.
  destruct (dispatch_ply game r) as [[e r1]|r1]; [exact Hd|].
  exact (IH r1 Hd).
Qed.

Lemma opening_loop_history (labels : list string) :
  forall r : Run State,
    history_ok game r -> history_ok game (run_of (opening_loop game labels r)).
Proof.
  induction labels as [|l labels IH]; intros r H; cbn [opening_loop];
    [exact H|].
  destruct (_get_action game (state r) l) as [a|] eqn:Hg; [|exact H].
  apply get_action_sound in Hg as [_ <-].
  pose proof (inform_all_events game (bots r) (state r) a 0%nat) as He.
  destruct (inform_all game 0 (bots r) (state r) a) as [bots' evs].
  cbn [snd] in He. apply IH. unfold history_ok in *. cbn [history trace].
  subst evs.
  rewrite !applied_labels_app, applied_labels_informs, <- H. reflexivity.
Qed.

End HistoryInvariant.

(** X4.  Whatever the outcome of a game, its history holds exactly the labels
    of the actions that were applied, in order, each as the engine words it
    for the player to move in the state the action was applied to: forced,
    typed, sampled and bot-chosen plies alike, one label per applied ply. *)
Theorem history_lists_applied_actions {State} (game : Game State)
  (FLAGS : Flags) (bs : list (Bot State)) (initial_actions : list string)
  (w : World) (fuel : nat) :
  history (run_of (_play_game game FLAGS bs initial_actions w fuel)) =
  applied_labels game
    (trace (run_of (_play_game game FLAGS bs initial_actions w fuel))).
Proof.
  change (history_ok game
            (run_of (_play_game game FLAGS bs initial_actions w fuel))).
  unfold _play_game.
  set (r0 := mkRun (new_initial_state game) bs [] [] w).
  assert (Hchoose : match choose_openings game FLAGS initial_actions r0 with
                    | inl (_, r) | inr (_, r) => history_ok game r
                    end).
  { unfold choose_openings.
    destruct (random_first FLAGS); [|reflexivity].
    destruct initial_actions; [|reflexivity].
    destruct (random_choice _ _) as [[e|a] g]; reflexivity. }
  destruct (choose_openings game FLAGS initial_actions r0) as [[e r1]|[labels r1]];
    [exact Hchoose|].
  pose proof (opening_loop_history game labels r1 Hchoose) as Ho.
  destruct (opening_loop game labels r1) as [[] r2|e r2|r2]; try exact Ho.
  pose proof (play_loop_history game fuel r2 Ho) as Hp.
  destruct (play_loop game fuel r2) as [[] r3|e r3|r3]; exact Hp.
Qed.

(** ** The bots during a game *)

Section Seats.

Context {State : Type}.
Variable game : Game State.
Variable FLAGS : Flags.

Lemma inform_all_classes (bs : list (Bot State)) (s : State) (a : Action) :
  forall i,
    List.map class_of (fst (inform_all game i bs s a)) = List.map class_of bs.
Proof.
  induction bs as [|b bs IH]; intros i; simpl; [reflexivity|].
  specialize (IH (S i)).
  destruct (inform_all game (S i) bs s a) as [rest' evs].
  simpl in *. now rewrite IH.
Qed.

Lemma inform_others_classes (bs : list (Bot State)) (cp : Player) (s : State)
  (a : Action) :
  forall i,
    List.map class_of (fst (inform_others i bs cp s a)) = List.map class_of bs.
Proof.
  induction bs as [|b bs IH]; intros i; simpl; [reflexivity|].
  specialize (IH (S i)).
  destruct (inform_others (S i) bs cp s a) as [rest' evs].
  destruct (Z.of_nat i =? cp); simpl in *; now rewrite IH.
Qed.

Lemma insert_same_class (bs : list (Bot State)) :
  forall (i : nat) (bot bot' : Bot State),
    bs !! i = Some bot -> class_of bot' = class_of bot ->
    List.map class_of (<[i:=bot']> bs) = List.map class_of bs.
Proof.
  induction bs as [|b bs IH]; intros [|i] bot bot' Hl Hc; simpl in *;
    try discriminate.
  - injection Hl as ->. now rewrite Hc.
  - f_equal. exact (IH i bot bot' Hl Hc).
Qed.

Lemma bot_step_class (b : Bot State) (s : State) :
  class_of (snd (bot_step b s)) = class_of b.
Proof.
  unfold bot_step. now destruct (step_m (class_of b) (self b) s).
Qed.

Lemma restart_classes (bs : list (Bot State)) :
  List.map class_of (List.map bot_restart bs) = List.map class_of bs.
Proof. induction bs as [|b bs IH]; simpl; [reflexivity|now rewrite IH]. Qed.

Lemma conclude_ply_classes (r : Run State) (cp : Player) (a : Action)
  (str : string) :
  List.map class_of (bots (conclude_ply game r cp a str)) =
  List.map class_of (bots r).
Proof.
  unfold conclude_ply.
  pose proof (inform_others_classes (bots r) cp (state r) a 0%nat) as H.
  destruct (inform_others 0 (bots r) cp (state r) a) as [bots' evs].
  exact H.
Qed.

Lemma dispatch_ply_classes (r : Run State) :
  match dispatch_ply game r with
  | inl (_, r') | inr r' =>
    List.map class_of (bots r') = List.map class_of (bots r)
  end.
Proof.
  unfold dispatch_ply.
  destruct (is_chance_node game (state (classify r))).
  - destruct (sample_chance _ _) as [[e|a] w]; [reflexivity|].
    apply (conclude_ply_classes (with_world (classify r) w)).
  - destruct (is_simultaneous_node game (state (classify r))); [reflexivity|].
    destruct (py_index _ _) as [i|]; [|reflexivity].
    destruct (bots (classify r) !! i) as [bot|] eqn:Hb; [|reflexivity].
    destruct (is_HumanBot (class_of bot)).
    + destruct (input (world (classify r))) as [[e|str] w]; [reflexivity|].
      destruct (_get_action game (state (classify r)) str) as [a|];
        [|reflexivity].
      apply (conclude_ply_classes (with_world (classify r) w)).
    + pose proof (bot_step_class bot (state (classify r))) as Hc.
      destruct (bot_step bot (state (classify r))) as [a bot'].
      rewrite conclude_ply_classes. cbn [with_bots bots classify] in *.
      exact (insert_same_class _ _ _ _ Hb Hc).
Qed.

Lemma play_loop_classes (fuel : nat) :
  forall r : Run State,
    List.map class_of (bots (run_of (play_loop game fuel r))) =
    List.map class_of (bots r).
Proof.
  induction fuel as [|fuel IH]; intros r; cbn [play_loop];
    destruct (is_terminal game (state r)); cbn [run_of]; try reflexivity.
  pose proof (dispatch_ply_classes r) as Hd.
  destruct (dispatch_ply game r) as [[e r1]|r1]; [exact Hd|].
  now rewrite IH.
Qed.

Lemma opening_loop_classes (labels : list string) :
  forall r : Run State,
    List.map class_of (bots (run_of (opening_loop game labels r))) =
    List.map class_of (bots r).
Proof.
  induction labels as [|l labels IH]; intros r; cbn [opening_loop];
    [reflexivity|].
  destruct (_get_action game (state r) l) as [a|]; [|reflexivity].
  pose proof (inform_all_classes (bots r) (state r) a 0%nat) as Hi.
  destruct (inform_all game 0 (bots r) (state r) a) as [bots' evs].
  rewrite IH. exact Hi.
Qed.

Lemma opening_loop_world (labels : list string) :
  forall r : Run State,
    world (run_of (opening_loop game labels r)) = world r.
Proof.
  induction labels as [|l labels IH]; intros r; cbn [opening_loop];
    [reflexivity|].
  destruct (_get_action game (state r) l) as [a|]; [|reflexivity].
  destruct (inform_all game 0 (bots r) (state r) a) as [bots' evs].
  now rewrite IH.
Qed.

Lemma no_human_classes (bs1 : list (Bot State)) :
  forall bs2 : list (Bot State),
    List.map class_of bs2 = List.map class_of bs1 ->
    no_human bs1 -> no_human bs2.
Proof.
  unfold no_human.
  induction bs1 as [|b1 bs1 IH]; intros [|b2 bs2] Hm H; simpl in Hm;
    try discriminate; [constructor|].
  injection Hm as Hc Hm. inversion H as [|? ? Hb Hrest]; subst.
  constructor; [now rewrite Hc|exact (IH bs2 Hm Hrest)].
Qed.

Lemma sample_chance_stdin (outcomes : list (Action * Q)) (w : World) :
  stdin (snd (sample_chance outcomes w)) = stdin w.
Proof.
  unfold sample_chance. destruct outcomes as [|o os]; [reflexivity|].
  destruct (List.split (o :: os)) as [al pl].
  now destruct (choice (np_random w) al pl).
Qed.

Lemma sample_chance_raises (outcomes : list (Action * Q)) (w w' : World)
  (e : exn) :
  sample_chance outcomes w = (inl e, w') -> not_invalid_move e.
Proof.
  unfold sample_chance. destruct outcomes as [|o os].
  - intros [= <- _]. intro; discriminate.
  - destruct (List.split (o :: os)) as [al pl].
    destruct (choice (np_random w) al pl) as [res rs] eqn:Hch.
    intros [= -> _]. unfold choice in Hch.
    repeat match type of Hch with
           | (if ?c then _ else _) = _ => destruct c
           end; try (injection Hch as <- _; intro; discriminate).
    destruct (random_sample (np_random w)) as [u rs1].
    destruct (nth_error al _); [discriminate|].
    injection Hch as <- _. intro; discriminate.
Qed.

Lemma dispatch_ply_no_human (r : Run State) :
  no_human (bots r) ->
  match dispatch_ply game r with
  | inl (e, r') => stdin (world r') = stdin (world r) /\ not_invalid_move e
  | inr r' => stdin (world r') = stdin (world r)
  end.
Proof.
  intros Hnh. unfold dispatch_ply.
  assert (Hcw : forall r1 cp a str,
             world (conclude_ply game r1 cp a str) = world r1).
  { intros r1 cp a str. unfold conclude_ply.
    now destruct (inform_others 0 (bots r1) cp (state r1) a). }
  destruct (is_chance_node game (state (classify r))).
  - pose proof (sample_chance_stdin
                  (chance_outcomes game (state (classify r)))
                  (world (classify r))) as Hs.
    destruct (sample_chance _ _) as [[e|a] w] eqn:Hsc; cbn [snd] in Hs.
    + split; [exact Hs|]. exact (sample_chance_raises _ _ _ _ Hsc).
    + rewrite Hcw. exact Hs.
  - destruct (is_simultaneous_node game (state (classify r))).
    { split; [reflexivity|]. intro; discriminate. }
    destruct (py_index _ _) as [i|];
      [|split; [reflexivity|intro; discriminate]].
    destruct (bots (classify r) !! i) as [bot|] eqn:Hb;
      [|split; [reflexivity|intro; discriminate]].
    cbn [classify bots] in Hb.
    assert (Hbot : is_HumanBot (class_of bot) = false).
    { unfold no_human in Hnh. rewrite Forall_forall in Hnh.
      apply Hnh. eapply list_elem_of_lookup_2. exact Hb. }
    rewrite Hbot.
    destruct (bot_step bot (state (classify r))) as [a bot'].
    now rewrite Hcw.
Qed.

Lemma play_loop_no_human (fuel : nat) :
  forall r : Run State,
    no_human (bots r) ->
    stdin (world (run_of (play_loop game fuel r))) = stdin (world r) /\
    forall e r', play_loop game fuel r = Raised e r' -> not_invalid_move e.
Proof.
  induction fuel as [|fuel IH]; intros r Hnh; cbn [play_loop];
    destruct (is_terminal game (state r)); cbn [run_of];
    try (split; [reflexivity|discriminate]).
  pose proof (dispatch_ply_no_human r Hnh) as Hd.
  pose proof (dispatch_ply_classes r) as Hc.
  destruct (dispatch_ply game r) as [[e r1]|r1].
  - destruct Hd as [Hs He]. split; [exact Hs|].
    intros e' r' [= <- _]. exact He.
  - destruct (IH r1 (no_human_classes _ _ Hc Hnh)) as [Hs He].
    split; [congruence|exact He].
Qed.

End Seats.

(** X5.  A game whose bots are not [HumanBot]s never calls [input]: the
    lines waiting on the terminal are left as they were found, and no
    exception that ends the game is the exit on a typed move that names no
    legal action. *)
Theorem game_without_humans_leaves_terminal {State} (game : Game State)
  (FLAGS : Flags) (bs : list (Bot State)) (initial_actions : list string)
  (w : World) (fuel : nat) :
  no_human bs ->
  stdin (world (run_of (_play_game game FLAGS bs initial_actions w fuel))) =
  stdin w /\
  forall e r, _play_game game FLAGS bs initial_actions w fuel = Raised e r ->
              not_invalid_move e.
Proof.
  intros Hnh. unfold _play_game.
  set (r0 := mkRun (new_initial_state game) bs [] [] w).
  assert (Hchoose : match choose_openings game FLAGS initial_actions r0 with
                    | inl (e, r) =>
                      stdin (world r) = stdin w /\ not_invalid_move e
                    | inr (_, r) => stdin (world r) = stdin w /\ bots r = bs
                    end).
  { unfold choose_openings.
    destruct (random_first FLAGS); [|now split].
    destruct initial_actions;
      [|split; [reflexivity|intro; discriminate]].
    unfold random_choice.
    destruct (legal_actions game (state r0)) as [|a0 acts];
      [split; [reflexivity|intro; discriminate]|].
    destruct (nth_error (a0 :: acts) _);
      [now split|split; [reflexivity|intro; discriminate]]. }
  destruct (choose_openings game FLAGS initial_actions r0) as [[e r1]|[labels r1]].
  - destruct Hchoose as [Hs He]. split; [exact Hs|].
    intros e' r' [= <- _]. exact He.
  - destruct Hchoose as [Hs Hb].
    pose proof (opening_loop_world game labels r1) as Hw.
    pose proof (opening_loop_classes game labels r1) as Hc.
    pose proof (opening_loop_replay game labels r1) as Hr.
    destruct (opening_loop game labels r1) as [[] r2|e r2|r2];
      cbn [run_of] in Hw, Hc.
    + assert (Hnh2 : no_human (bots r2)).
      { apply (no_human_classes bs); [now rewrite Hc, Hb|exact Hnh]. }
      destruct (play_loop_no_human game fuel r2 Hnh2) as [Hs2 He2].
      destruct (play_loop game fuel r2) as [[] r3|e r3|r3] eqn:Hp;
        cbn [run_of with_bots world] in *.
      * split; [congruence|discriminate].
      * split; [congruence|]. intros e' r' [= <- _]. exact (He2 e r3 eq_refl).
      * split; [congruence|discriminate].
    + cbn [run_of]. split; [congruence|].
      intros e' r' [= <- _]. destruct Hr as [_ [lab ->]].
      intro; discriminate.
    + contradiction.
Qed.

(** X5 on a game of [Toy.abc] between two scripted bots, with a line waiting
    on the terminal. *)
Lemma game_without_humans_leaves_terminal_witness :
  stdin (world (run_of (_play_game Toy.abc (Toy.flags "mcts" "mcts" 1 None)
                          [Toy.first_legal Toy.abc; Toy.nth_legal Toy.abc 1] []
                          (Toy.still 0 [Line "A"]) 5))) =
  stdin (Toy.still 0 [Line "A"]) /\
  forall e r, _play_game Toy.abc (Toy.flags "mcts" "mcts" 1 None)
                [Toy.first_legal Toy.abc; Toy.nth_legal Toy.abc 1] []
                (Toy.still 0 [Line "A"]) 5 = Raised e r ->
              not_invalid_move e.
Proof.
  apply (game_without_humans_leaves_terminal Toy.abc
           (Toy.flags "mcts" "mcts" 1 None)
           [Toy.first_legal Toy.abc; Toy.nth_legal Toy.abc 1] []
           (Toy.still 0 [Line "A"]) 5).
  repeat constructor.
Defined.

(** ** Replaying a history *)

Section Replay.

Context {State : Type}.
Variable game : Game State.
Variable FLAGS : Flags.



Lemma split_fst_in {A B} (l : list (A * B)) (x : A) :
  In x (fst (List.split l)) -> exists y, In (x, y) l.
Proof.
  induction l as [|[a b] l IH]; simpl; [intros []|].
  destruct (List.split l) as [la lb]. simpl in *.
  intros [<-|Hin]; [eauto|]. destruct (IH Hin) as [y Hy]. eauto.
Qed.

Lemma choice_in (rs rs' : RandomState) (a : list Action) (p : list Q)
  (x : Action) :
  choice rs a p = (inr x, rs') -> In x a.
Proof.
  unfold choice. intros H.
  repeat match type of H with
         | (if ?c then _ else _) = _ => destruct c
         end; try discriminate.
  destruct (random_sample rs) as [u rs1].
  destruct (nth_error a _) eqn:Hn; [|discriminate].
  injection H as <- _. exact (nth_error_In _ _ Hn).
Qed.

Lemma sample_chance_in (outcomes : list (Action * Q)) (w w' : World)
  (a : Action) :
  sample_chance outcomes w = (inr a, w') -> exists p, In (a, p) outcomes.
Proof.
  unfold sample_chance. destruct outcomes as [|o os]; [discriminate|].
  pose proof (split_fst_in (o :: os) a) as Hs.
  destruct (List.split (o :: os)) as [al pl].
  destruct (choice (np_random w) al pl) as [res rs] eqn:Hch.
  intros [= -> _]. apply Hs. exact (choice_in _ _ _ _ _ Hch).
Qed.






End Replay.







(** ** Games without chance nodes and numpy's global generator *)

Section NoChance.

Context {State : Type}.
Variable game : Game State.
Variable FLAGS : Flags.
Variable rs : RandomState.

Lemma input_renumpy (w : World) :
  input (set_np_random w rs) =
  (fst (input w), set_np_random (snd (input w)) rs).
Proof.
  unfold input. cbn [set_np_random stdin].
  destruct (stdin w) as [|[str|] rest]; reflexivity.
Qed.

Lemma conclude_ply_renumpy (r : Run State) (cp : Player) (a : Action)
  (str : string) :
  conclude_ply game (renumpy rs r) cp a str =
  renumpy rs (conclude_ply game r cp a str).
Proof.
  unfold conclude_ply. cbn [renumpy with_world bots state].
  now destruct (inform_others 0 (bots r) cp (state r) a).
Qed.

Lemma dispatch_ply_renumpy (r : Run State) :
  is_chance_node game (state r) = false ->
  dispatch_ply game (renumpy rs r) =
  match dispatch_ply game r with
  | inl (e, r') => inl (e, renumpy rs r')
  | inr r' => inr (renumpy rs r')
  end.
Proof.
  intros Hc. unfold dispatch_ply.
  change (classify (renumpy rs r)) with (renumpy rs (classify r)).
  cbn [renumpy with_world state bots world classify]. rewrite Hc.
  destruct (is_simultaneous_node game (state r)); [reflexivity|].
  destruct (py_index (bots r) (current_player game (state r))) as [i|];
    [|reflexivity].
  destruct (bots r !! i) as [bot|]; [|reflexivity].
  destruct (is_HumanBot (class_of bot)).
  - rewrite input_renumpy.
    destruct (input (world r)) as [[e|str] w']; cbn [fst snd]; [reflexivity|].
    destruct (_get_action game (state r) str) as [a|]; [|reflexivity].
    f_equal.
    exact (conclude_ply_renumpy (with_world (classify r) w') _ a str).
  - destruct (bot_step bot (state r)) as [a bot']. f_equal.
    rewrite <- conclude_ply_renumpy. reflexivity.
Qed.

Hypothesis no_chance : forall s, is_chance_node game s = false.

Lemma play_loop_renumpy (fuel : nat) :
  forall r : Run State,
    play_loop game fuel (renumpy rs r) =
    renumpy_outcome rs (play_loop game fuel r).
Proof.
  induction fuel as [|fuel IH]; intros r; cbn [play_loop];
    change (state (renumpy rs r)) with (state r);
    destruct (is_terminal game (state r)); try reflexivity.
  rewrite (dispatch_ply_renumpy r (no_chance _)).
  destruct (dispatch_ply game r) as [[e r1]|r1]; [reflexivity|apply IH].
Qed.

Lemma opening_loop_renumpy (labels : list string) :
  forall r : Run State,
    opening_loop game labels (renumpy rs r) =
    renumpy_outcome rs (opening_loop game labels r).
Proof.
  induction labels as [|l labels IH]; intros r; cbn [opening_loop];
    [reflexivity|].
  cbn [renumpy with_world state bots history trace world].
  destruct (_get_action game (state r) l) as [a|]; [|reflexivity].
  destruct (inform_all game 0 (bots r) (state r) a) as [bots' evs].
  match goal with |- _ = renumpy_outcome rs (opening_loop game labels ?r1) =>
    rewrite <- (IH r1) end.
  reflexivity.
Qed.

Lemma play_game_renumpy (bs : list (Bot State)) (initial_actions : list string)
  (w : World) (fuel : nat) :
  _play_game game FLAGS bs initial_actions (set_np_random w rs) fuel =
  renumpy_outcome rs (_play_game game FLAGS bs initial_actions w fuel).
Proof.
  unfold _play_game.
  change (mkRun (new_initial_state game) bs [] [] (set_np_random w rs))
    with (renumpy rs (mkRun (new_initial_state game) bs [] [] w)).
  set (r0 := mkRun (new_initial_state game) bs [] [] w).
  assert (Hchoose :
            choose_openings game FLAGS initial_actions (renumpy rs r0) =
            match choose_openings game FLAGS initial_actions r0 with
            | inl (e, r) => inl (e, renumpy rs r)
            | inr (ls, r) => inr (ls, renumpy rs r)
            end).
  { unfold choose_openings.
    destruct (random_first FLAGS); [|reflexivity].
    destruct initial_actions; [|reflexivity].
    change (py_random (world (renumpy rs r0))) with (py_random (world r0)).
    change (state (renumpy rs r0)) with (state r0).
    destruct (random_choice (py_random (world r0))
                (legal_actions game (state r0))) as [[e|a] g]; reflexivity. }
  rewrite Hchoose.
  destruct (choose_openings game FLAGS initial_actions r0) as [[e r1]|[labels r1]];
    [reflexivity|].
  rewrite opening_loop_renumpy.
  destruct (opening_loop game labels r1) as [[] r2|e r2|r2];
    cbn [renumpy_outcome]; try reflexivity.
  rewrite play_loop_renumpy.
  destruct (play_loop game fuel r2) as [[] r3|e r3|r3]; reflexivity.
Qed.

End NoChance.

Section NoChanceSession.

Context {State : Type}.
Variable game : Game State.
Variable lib : BotLibrary State.
Variable FLAGS : Flags.
Variable rs : RandomState.
Hypothesis no_chance : forall s, is_chance_node game s = false.

Lemma init_bot_renumpy (bot_type : string) (player_id : Z) (w : World) :
  _init_bot lib FLAGS bot_type player_id (set_np_random w rs) =
  (fst (_init_bot lib FLAGS bot_type player_id w),
   set_np_random (snd (_init_bot lib FLAGS bot_type player_id w)) rs).
Proof.
  unfold _init_bot, RandomState_new.
  destruct (seed FLAGS) as [s|];
    [destruct ((0 <=? s) && (s <=? 2 ^ 32 - 1))|];
    cbn [set_np_random entropy entropy_used];
    repeat match goal with
           | |- context [if ?c then _ else _] => destruct c
           end; reflexivity.
Qed.

Lemma session_loop_renumpy (labels : list string) (fuel : nat)
  (games : list Z) :
  forall bs l w,
    session_loop game FLAGS games bs l labels (set_np_random w rs) fuel =
    renumpy_session rs (session_loop game FLAGS games bs l labels w fuel).
Proof.
  induction games as [|n games IH]; intros bs l w; cbn [session_loop];
    [reflexivity|].
  rewrite (play_game_renumpy game FLAGS rs no_chance).
  destruct (_play_game game FLAGS _ labels w fuel) as [[ret h] r|e r|r];
    cbn [renumpy_outcome]; try reflexivity.
  destruct (record_game (with_game_num l n) n ret h) as [[e|] l'];
    [reflexivity|].
  exact (IH (bots r) l' (world r)).
Qed.

End NoChanceSession.

(** X7.  In a game without chance nodes nothing depends on numpy's global
    generator: started with that generator in any other state, a game has
    the same outcome, result, history, calls and bots, reads the same input,
    and leaves the generator as it found it. *)
Theorem game_without_chance_ignores_numpy {State} (game : Game State)
  (FLAGS : Flags) (rs : RandomState) (bs : list (Bot State))
  (initial_actions : list string) (w : World) (fuel : nat) :
  (forall s, is_chance_node game s = false) ->
  _play_game game FLAGS bs initial_actions (set_np_random w rs) fuel =
  renumpy_outcome rs (_play_game game FLAGS bs initial_actions w fuel).
Proof.
  intros Hno. unfold _play_game.
  change (mkRun (new_initial_state game) bs [] [] (set_np_random w rs))
    with (renumpy rs (mkRun (new_initial_state game) bs [] [] w)).
  set (r0 := mkRun (new_initial_state game) bs [] [] w).
  assert (Hchoose :
            choose_openings game FLAGS initial_actions (renumpy rs r0) =
            match choose_openings game FLAGS initial_actions r0 with
            | inl (e, r) => inl (e, renumpy rs r)
            | inr (ls, r) => inr (ls, renumpy rs r)
            end).
  { unfold choose_openings.
    destruct (random_first FLAGS); [|reflexivity].
    destruct initial_actions; [|reflexivity].
    change (py_random (world (renumpy rs r0))) with (py_random (world r0)).
    change (state (renumpy rs r0)) with (state r0).
    destruct (random_choice (py_random (world r0))
                (legal_actions game (state r0))) as [[e|a] g]; reflexivity. }
  rewrite Hchoose.
  destruct (choose_openings game FLAGS initial_actions r0) as [[e r1]|[labels r1]];
    [reflexivity|].
  rewrite opening_loop_renumpy.
  destruct (opening_loop game labels r1) as [[] r2|e r2|r2];
    cbn [renumpy_outcome]; try reflexivity.
  rewrite (play_loop_renumpy game rs Hno).
  destruct (play_loop game fuel r2) as [[] r3|e r3|r3]; reflexivity.
Qed.

Lemma abc_no_chance (s : list Action) : is_chance_node Toy.abc s = false.
Proof. destruct s as [|x [|y s]]; reflexivity. Qed.

(** X7 on [Toy.abc], whose nodes are all decisions. *)
Lemma game_without_chance_ignores_numpy_witness :
  _play_game Toy.abc (Toy.flags "mcts" "mcts" 1 None)
    [Toy.first_legal Toy.abc; Toy.nth_legal Toy.abc 1] ["B"]
    (set_np_random (Toy.still 0 []) {| raw := fun _ => 5; cursor := 3 |}) 5 =
  renumpy_outcome {| raw := fun _ => 5; cursor := 3 |}
    (_play_game Toy.abc (Toy.flags "mcts" "mcts" 1 None)
       [Toy.first_legal Toy.abc; Toy.nth_legal Toy.abc 1] ["B"]
       (Toy.still 0 []) 5).
Proof.
  apply (game_without_chance_ignores_numpy Toy.abc
           (Toy.flags "mcts" "mcts" 1 None) {| raw := fun _ => 5; cursor := 3 |}
           [Toy.first_legal Toy.abc; Toy.nth_legal Toy.abc 1] ["B"]
           (Toy.still 0 []) 5).
  exact abc_no_chance.
Defined.

(** X8.  With a game without chance nodes a whole session is independent of
    numpy's global generator: the report, or the exception and the
    accumulators it leaves, are the same whatever state that generator
    starts in, and the generator ends as it started. *)
Theorem session_without_chance_ignores_numpy {State} (game : Game State)
  (lib : BotLibrary State) (FLAGS : Flags) (rs : RandomState)
  (argv : list string) (w : World) (fuel : nat) :
  (forall s, is_chance_node game s = false) ->
  main game lib FLAGS argv (set_np_random w rs) fuel =
  renumpy_result rs (main game lib FLAGS argv w fuel).
Proof.
  intros Hno. unfold main.
  destruct (2 <? num_players game); [reflexivity|].
  rewrite init_bot_renumpy.
  destruct (_init_bot lib FLAGS (player1 FLAGS) 0 w) as [[e1|b1] w1];
    cbn [fst snd]; [reflexivity|].
  rewrite init_bot_renumpy.
  destruct (_init_bot lib FLAGS (player2 FLAGS) 1 w1) as [[e2|b2] w2];
    cbn [fst snd]; [reflexivity|].
  rewrite (session_loop_renumpy game FLAGS rs Hno).
  destruct (session_loop game FLAGS _ _ _ _ w2 fuel) as [l bs0 w0|e l bs0 w0|l bs0 w0];
    cbn [renumpy_session finish]; try reflexivity.
  destruct e; reflexivity.
Qed.

(** X8 on three games of [Toy.abc]: the third meets the end of the input. *)
Lemma session_without_chance_ignores_numpy_witness :
  main Toy.abc (Toy.scripted Toy.abc) (Toy.flags "random" "random" 3 (Some 7))
       ["prog"]
       (set_np_random (Toy.still 0 []) {| raw := fun _ => 5; cursor := 3 |}) 5 =
  renumpy_result {| raw := fun _ => 5; cursor := 3 |}
    (main Toy.abc (Toy.scripted Toy.abc)
          (Toy.flags "random" "random" 3 (Some 7)) ["prog"] (Toy.still 0 []) 5).
Proof.
  apply (session_without_chance_ignores_numpy Toy.abc (Toy.scripted Toy.abc)
           (Toy.flags "random" "random" 3 (Some 7))
           {| raw := fun _ => 5; cursor := 3 |} ["prog"] (Toy.still 0 []) 5).
  exact abc_no_chance.
Defined.

(** ** Recording a result *)

Lemma score_at_head (i : nat) (v : Q) (returns : list Q) :
  score_at i i (v :: returns) = Some v /\ score_at (S i) i returns = None.
Proof.
  unfold score_at. rewrite Nat.leb_refl, Nat.sub_diag.
  destruct (Nat.leb_spec (S i) i); [lia|]. now split.
Qed.

Lemma score_at_tail (i j : nat) (v : Q) (returns : list Q) :
  j <> i -> score_at i j (v :: returns) = score_at (S i) j returns.
Proof.
  intros Hne. unfold score_at.
  destruct (Nat.leb_spec i j), (Nat.leb_spec (S i) j); try lia; try reflexivity.
  replace (j - i)%nat with (S (j - S i)) by lia. reflexivity.
Qed.

(** The loop of lines 207-210 started at index [i]: when it raises nothing,
    every seat's total and win count are bumped by that seat's score. *)
Lemma tally_spec (returns : list Q) :
  forall (i : nat) (ors ors' : list Q) (ows ows' : list Z),
    tally i returns ors ows = (None, ors', ows') ->
    forall j,
      ors' !! j = bump_return (score_at i j returns) <$> ors !! j /\
      ows' !! j = bump_win (score_at i j returns) <$> ows !! j.
Proof.
  induction returns as [|v returns IH]; intros i ors ors' ows ows' H j;
    cbn [tally] in H.
  - injection H as <- <-. unfold score_at.
    destruct (i <=? j)%nat; [rewrite lookup_nil|];
      now destruct (ors !! j), (ows !! j).
  - destruct (ors !! i) as [x|] eqn:Hx; [|discriminate].
    destruct (negb (Qle_bool v 0)) eqn:Hv.
    + destruct (ows !! i) as [k|] eqn:Hk; [|discriminate].
      destruct (IH _ _ _ _ _ H j) as [Ho Hw]. rewrite Ho, Hw.
      destruct (Nat.eq_dec j i) as [->|Hne].
      * destruct (score_at_head i v returns) as [-> ->].
        rewrite !list_lookup_insert_eq, Hx, Hk
          by (eapply lookup_lt_Some; eassumption).
        unfold bump_win, bump_return. now rewrite Hv.
      * rewrite (score_at_tail i j v returns Hne).
        now rewrite !list_lookup_insert_ne by congruence.
    + destruct (IH _ _ _ _ _ H j) as [Ho Hw]. rewrite Ho, Hw.
      destruct (Nat.eq_dec j i) as [->|Hne].
      * destruct (score_at_head i v returns) as [-> ->].
        rewrite list_lookup_insert_eq, Hx
          by (eapply lookup_lt_Some; eassumption).
        unfold bump_win, bump_return. rewrite Hv. now destruct (ows !! i).
      * rewrite (score_at_tail i j v returns Hne).
        now rewrite list_lookup_insert_ne by congruence.
Qed.

Lemma tally_out_of_range (returns : list Q) :
  forall (i : nat) (ors : list Q) (ows : list Z),
    (length ors < i + length returns)%nat ->
    (i <= length ors)%nat ->
    fst (fst (tally i returns ors ows)) = Some IndexError.
Proof.
  induction returns as [|v returns IH]; intros i ors ows Hlt Hle;
    cbn [tally length] in *; [lia|].
  destruct (ors !! i) as [x|] eqn:Hx; [|reflexivity].
  apply lookup_lt_Some in Hx.
  destruct (negb (Qle_bool v 0)).
  - destruct (ows !! i) as [k|]; [|reflexivity].
    apply IH; rewrite length_insert; lia.
  - apply IH; rewrite length_insert; lia.
Qed.

(** X10.  Recording a game counts its trajectory once more (other
    trajectories keep their counts) and then goes through the scores in seat
    order.  When the accumulators have a slot for every score, each seat's
    total grows by its score and its win count by one exactly when the score
    is positive, the other slots are untouched, and nothing is raised.  When
    there are more scores than slots, [IndexError] is raised after the
    trajectory has already been counted. *)
Theorem record_game_adds_scores (l : Locals) (n : Z) (returns : list Q)
  (h : list string) :
  length (overall_wins l) = length (overall_returns l) ->
  ((length returns <= length (overall_returns l))%nat ->
   exists l',
     record_game l n returns h = (None, l') /\
     game_num l' = n /\
     histories l' !! join h = Some (default 0 (histories l !! join h) + 1) /\
     (forall key, key <> join h -> histories l' !! key = histories l !! key) /\
     forall j,
       overall_returns l' !! j =
         bump_return (returns !! j) <$> overall_returns l !! j /\
       overall_wins l' !! j =
         bump_win (returns !! j) <$> overall_wins l !! j) /\
  ((length (overall_returns l) < length returns)%nat ->
   exists l',
     record_game l n returns h = (Some IndexError, l') /\
     histories l' !! join h = Some (default 0 (histories l !! join h) + 1)).
Proof.
  intros Hlen. unfold record_game, count_history. split.
  - intros Hle.
    destruct (tally_in_range returns 0 (overall_returns l) (overall_wins l))
      as (ors' & ows' & Ht & _); [simpl; lia|exact Hlen|].
    rewrite Ht. eexists. split; [reflexivity|].
    cbn [game_num histories overall_returns overall_wins].
    split; [reflexivity|]. split; [apply lookup_insert_eq|].
    split; [intros key Hne; now apply lookup_insert_ne|].
    intros j. destruct (tally_spec _ _ _ _ _ _ Ht j) as [Ho Hw].
    unfold score_at in Ho, Hw. cbn [Nat.leb] in Ho, Hw.
    rewrite Nat.sub_0_r in Ho, Hw. now split.
  - intros Hlt.
    pose proof (tally_out_of_range returns 0 (overall_returns l)
                  (overall_wins l)) as Ht.
    destruct (tally 0 returns (overall_returns l) (overall_wins l))
      as [[err ors'] ows'].
    cbn [fst] in Ht. rewrite Ht by (simpl; lia).
    eexists. split; [reflexivity|]. cbn [histories]. apply lookup_insert_eq.
Qed.

(** X10 on the first game of a session, won by seat 0. *)
Lemma record_game_adds_scores_witness :
  ((length [1%Q; (-1)%Q] <= length (overall_returns initial_locals))%nat ->
   exists l',
     record_game initial_locals 0 [1%Q; (-1)%Q] ["A"; "B"] = (None, l') /\
     game_num l' = 0 /\
     histories l' !! join ["A"; "B"] =
       Some (default 0 (histories initial_locals !! join ["A"; "B"]) + 1) /\
     (forall key, key <> join ["A"; "B"] ->
                  histories l' !! key = histories initial_locals !! key) /\
     forall j,
       overall_returns l' !! j =
         bump_return ([1%Q; (-1)%Q] !! j) <$> overall_returns initial_locals !! j /\
       overall_wins l' !! j =
         bump_win ([1%Q; (-1)%Q] !! j) <$> overall_wins initial_locals !! j) /\
  ((length (overall_returns initial_locals) < length [1%Q; (-1)%Q])%nat ->
   exists l',
     record_game initial_locals 0 [1%Q; (-1)%Q] ["A"; "B"] =
       (Some IndexError, l') /\
     histories l' !! join ["A"; "B"] =
       Some (default 0 (histories initial_locals !! join ["A"; "B"]) + 1)).
Proof.
  apply (record_game_adds_scores initial_locals 0 [1%Q; (-1)%Q] ["A"; "B"]).
  reflexivity.
Defined.

(** ** What a report can say *)

Lemma bump_win_step (v : option Q) (k : Z) : k <= bump_win v k <= k + 1.
Proof.
  unfold bump_win. destruct v as [v|]; [|lia].
  destruct (negb (Qle_bool v 0)); lia.
Qed.

Lemma record_game_within (c : nat) (l l' : Locals) (n : Z) (returns : list Q)
  (h : list string) :
  stats_within c l ->
  record_game l n returns h = (None, l') ->
  stats_within (S c) l' /\ game_num l' = n.
Proof.
  intros (Hsize & _ & Hwins). unfold record_game.
  destruct (tally 0 returns (overall_returns l) (overall_wins l))
    as [[err ors'] ows'] eqn:Ht.
  intros [= -> <-]. split; [|reflexivity].
  cbn [stats_within histories overall_wins]. unfold stats_within.
  cbn [histories overall_wins]. unfold count_history.
  repeat split.
  - rewrite map_size_insert. destruct (histories l !! join h); simpl; lia.
  - intros _. rewrite map_size_insert.
    destruct (histories l !! join h) eqn:E; simpl; [|lia].
    assert (size (histories l) <> 0)%nat; [|lia].
    apply (map_size_ne_0_lookup_2 _ (join h)). rewrite E. eauto.
  - apply Forall_lookup. intros j k' Hk'.
    destruct (tally_spec _ _ _ _ _ _ Ht j) as [_ Hw]. rewrite Hk' in Hw.
    destruct (overall_wins l !! j) as [k|] eqn:Hk; [|discriminate].
    injection Hw as ->.
    rewrite Forall_lookup in Hwins. specialize (Hwins j k Hk).
    pose proof (bump_win_step (score_at 0 j returns) k). lia.
Qed.

(** ** Sessions, game by game *)

Section SessionSteps.

Context {State : Type}.
Variable game : Game State.
Variable FLAGS : Flags.
Variable labels : list string.
Variable fuel : nat.

Lemma completes_le c bs l w c' bs' l' w' :
  completes game FLAGS labels fuel c bs l w c' bs' l' w' -> (c <= c')%nat.
Proof. induction 1; lia. Qed.

(** The session loop runs through the games that complete. *)
Lemma session_loop_completes c bs l w c' bs' l' w' :
  completes game FLAGS labels fuel c bs l w c' bs' l' w' ->
  forall m,
    session_loop game FLAGS (List.map Z.of_nat (seq c ((c' - c) + m))) bs l
                 labels w fuel =
    session_loop game FLAGS (List.map Z.of_nat (seq c' m)) bs' l' labels w' fuel.
Proof.
  induction 1 as [c bs l w|c bs l w scores h r l1 c' bs' l' w' Hplay Hrec Hrest IH];
    intros m.
  - now rewrite Nat.sub_diag.
  - pose proof (completes_le _ _ _ _ _ _ _ _ Hrest) as Hle.
    replace (c' - c + m)%nat with (S (c' - S c + m)) by lia.
    cbn [seq List.map session_loop]. unfold seated in Hplay.
    rewrite Hplay, record_game_ignores_game_num, Hrec. apply IH.
Qed.

(** The statistics stay within the number of recorded games. *)
Lemma completes_within c bs l w c' bs' l' w' :
  completes game FLAGS labels fuel c bs l w c' bs' l' w' ->
  stats_within c l ->
  stats_within c' l' /\
  (c' = c /\ l' = l \/ (c < c')%nat /\ game_num l' = Z.of_nat c' - 1).
Proof.
  induction 1 as [c bs l w|c bs l w scores h r l1 c' bs' l' w' Hplay Hrec Hrest IH];
    intros Hin.
  - split; [exact Hin|left; now split].
  - destruct (record_game_within c _ _ _ _ _ Hin Hrec) as [Hin1 Hnum].
    destruct (IH Hin1) as [Hin' [[-> ->]|[Hlt Hg]]].
    + split; [exact Hin'|right]. split; lia.
    + split; [exact Hin'|right]. split; [lia|exact Hg].
Qed.

End SessionSteps.

(** X11.  The statistics of a session never run ahead of its games: after
    the first k games of a session have each returned a result that was
    recorded without error, the table of trajectories holds at most k distinct
    ones, and at least one when k is positive; no seat is credited with a
    negative number of wins or with more than k; and the index of the last
    game is k - 1, so that a report made then counts k games. *)
Theorem recorded_games_bound_the_statistics {State} (game : Game State)
  (FLAGS : Flags) (labels : list string) (fuel : nat) (bs0 : list (Bot State))
  (w0 : World) (k : nat) (bs : list (Bot State)) (l : Locals) (w : World) :
  completes game FLAGS labels fuel 0 bs0 initial_locals w0 k bs l w ->
  stats_within k l /\
  ((0 < k)%nat -> games_played (report_of FLAGS l) = Z.of_nat k).
Proof.
  intros Hdone.
  assert (Hinit : stats_within 0 initial_locals).
  { unfold stats_within, initial_locals. cbn [histories overall_wins].
    split; [rewrite map_size_empty; lia|].
    split; [lia|repeat constructor; lia]. }
  destruct (completes_within game FLAGS labels fuel _ _ _ _ _ _ _ _ Hdone Hinit)
    as [Hin [[-> ->]|[Hlt Hg]]].
  - split; [exact Hin|lia].
  - split; [exact Hin|]. intros _. unfold report_of. cbn [games_played]. lia.
Qed.

(** X11 on the first two games of a session of [Toy.abc] between scripted
    bots, both won by seat 0 along the same trajectory. *)
Lemma recorded_games_bound_the_statistics_witness :
  exists l : Locals,
    (size (histories l) = 1%nat /\ overall_wins l = [2; 0]) /\
    stats_within 2 l /\
    ((0 < 2)%nat ->
     games_played (report_of (Toy.flags "random" "random" 5 (Some 7)) l) =
     Z.of_nat 2).
Proof.
  eexists. split; [|
    eapply (recorded_games_bound_the_statistics Toy.abc
              (Toy.flags "random" "random" 5 (Some 7)) [] 10
              [Toy.nth_legal Toy.abc 0; Toy.nth_legal Toy.abc 1]
              (Toy.still 0 []) 2);
    (eapply completes_next; [vm_compute; reflexivity|vm_compute; reflexivity|]);
    (eapply completes_next; [vm_compute; reflexivity|vm_compute; reflexivity|]);
    apply completes_none].
  vm_compute. split; reflexivity.
Defined.

(** X12.  An interrupt at any game: when the games of index 0 to k - 1
    complete and are recorded, and the game of index k, one of the configured
    games, meets the end of the input or an interrupt, the session finishes
    with a report that counts exactly k games played and carries the
    accumulators of those k games. *)
Theorem interrupt_reports_completed_games {State} (game : Game State)
  (lib : BotLibrary State) (FLAGS : Flags) (argv : list string) (w : World)
  (fuel : nat) (b1 b2 : Bot State) (w1 w2 : World) (k : nat)
  (bs : list (Bot State)) (l : Locals) (w3 : World) (e : exn) (r : Run State) :
  num_players game <= 2 ->
  _init_bot lib FLAGS (player1 FLAGS) 0 w = (inr b1, w1) ->
  _init_bot lib FLAGS (player2 FLAGS) 1 w1 = (inr b2, w2) ->
  completes game FLAGS (List.tl argv) fuel 0 [b1; b2] initial_locals w2
            k bs l w3 ->
  Z.of_nat k < num_games FLAGS ->
  _play_game game FLAGS (seated k bs) (List.tl argv) w3 fuel = Raised e r ->
  e = EOFError \/ e = KeyboardInterrupt ->
  main game lib FLAGS argv w fuel =
  Finished {| games_played := Z.of_nat k;
              distinct_games := size (histories l);
              players := (player1 FLAGS, player2 FLAGS);
              wins := overall_wins l;
              total_returns := overall_returns l |} (world r).
Proof.
  intros Hn Hb1 Hb2 Hdone Hk Hplay He. unfold main.
  destruct (Z.ltb_spec 2 (num_players game)) as [Hgt|_]; [lia|].
  rewrite Hb1, Hb2. unfold range.
  replace (Z.to_nat (num_games FLAGS))
    with ((k - 0) + S (Z.to_nat (num_games FLAGS) - S k))%nat by lia.
  rewrite (session_loop_completes game FLAGS _ fuel _ _ _ _ _ _ _ _ Hdone).
  cbn [seq List.map session_loop]. unfold seated in Hplay. rewrite Hplay.
  cbn [finish]. unfold report_of, with_game_num.
  cbn [game_num histories overall_wins overall_returns].
  replace (Z.of_nat k - 1 + 1) with (Z.of_nat k) by lia.
  destruct He as [-> | ->]; reflexivity.
Qed.

(** X12 on five games of [Toy.abc] whose third game meets the end of the
    input. *)
Lemma interrupt_reports_completed_games_witness :
  exists w',
    main Toy.abc (Toy.scripted Toy.abc)
         (Toy.flags "random" "random" 5 (Some 7)) ["prog"] (Toy.still 0 []) 10 =
    Finished {| games_played := Z.of_nat 2;
                distinct_games := 1;
                players := ("random", "random");
                wins := [2; 0];
                total_returns := [2%Q; (-2)%Q] |} w'.
Proof.
  eexists. etransitivity.
  - eapply (interrupt_reports_completed_games Toy.abc (Toy.scripted Toy.abc)
              (Toy.flags "random" "random" 5 (Some 7)) ["prog"]
              (Toy.still 0 []) 10 _ _ _ _ 2).
    + vm_compute. discriminate.
    + vm_compute. reflexivity.
    + vm_compute. reflexivity.
    + eapply completes_next; [vm_compute; reflexivity|vm_compute; reflexivity|].
      eapply completes_next; [vm_compute; reflexivity|vm_compute; reflexivity|].
      apply completes_none.
    + vm_compute. reflexivity.
    + vm_compute. reflexivity.
    + left. reflexivity.
  - vm_compute. reflexivity.
Defined.

(** X13.  A session that runs to its end: when at least one game is
    configured and all the configured games complete and are recorded, the
    report counts exactly the configured number of games and carries the
    accumulators of all of them. *)
Theorem completed_session_reports_all_games {State} (game : Game State)
  (lib : BotLibrary State) (FLAGS : Flags) (argv : list string) (w : World)
  (fuel : nat) (b1 b2 : Bot State) (w1 w2 : World)
  (bs : list (Bot State)) (l : Locals) (w3 : World) :
  num_players game <= 2 ->
  _init_bot lib FLAGS (player1 FLAGS) 0 w = (inr b1, w1) ->
  _init_bot lib FLAGS (player2 FLAGS) 1 w1 = (inr b2, w2) ->
  0 < num_games FLAGS ->
  completes game FLAGS (List.tl argv) fuel 0 [b1; b2] initial_locals w2
            (Z.to_nat (num_games FLAGS)) bs l w3 ->
  main game lib FLAGS argv w fuel =
  Finished {| games_played := num_games FLAGS;
              distinct_games := size (histories l);
              players := (player1 FLAGS, player2 FLAGS);
              wins := overall_wins l;
              total_returns := overall_returns l |} w3.
Proof.
  intros Hn Hb1 Hb2 Hpos Hdone. unfold main.
  destruct (Z.ltb_spec 2 (num_players game)) as [Hgt|_]; [lia|].
  rewrite Hb1, Hb2. unfold range.
  assert (Hnum : game_num l = num_games FLAGS - 1).
  { clear Hb1 Hb2. remember (Z.to_nat (num_games FLAGS)) as n eqn:En.
    assert (Hgen : forall c bs0 l0 w0 c' bs' l' w',
               completes game FLAGS (List.tl argv) fuel c bs0 l0 w0 c' bs' l' w' ->
               (c < c')%nat -> game_num l' = Z.of_nat c' - 1).
    { induction 1 as [|c bs0 l0 w0 scores h r l1 c' bs' l' w' Hplay Hrec Hrest IH];
        intros Hlt; [lia|].
      destruct (Nat.eq_dec (S c) c') as [<-|Hne]; [|apply IH; lia].
      inversion Hrest; subst; [|].
      - unfold record_game in Hrec.
        destruct (tally 0 scores _ _) as [[err ors] ows].
        injection Hrec as _ <-. cbn [game_num]. lia.
      - match goal with H : completes _ _ _ _ (S (S c)) _ _ _ _ _ _ _ |- _ =>
          apply completes_le in H end. lia. }
    rewrite (Hgen _ _ _ _ _ _ _ _ Hdone) by lia. lia. }
  replace (Z.to_nat (num_games FLAGS))
    with ((Z.to_nat (num_games FLAGS) - 0) + 0)%nat at 1 by lia.
  rewrite (session_loop_completes game FLAGS _ fuel _ _ _ _ _ _ _ _ Hdone).
  cbn [seq List.map session_loop finish]. unfold report_of.
  rewrite Hnum. replace (num_games FLAGS - 1 + 1) with (num_games FLAGS) by lia.
  reflexivity.
Qed.

(** X13 on two games of [Toy.abc] between scripted bots. *)
Lemma completed_session_reports_all_games_witness :
  exists w',
    main Toy.abc (Toy.scripted Toy.abc)
         (Toy.flags "random" "random" 2 (Some 7)) ["prog"] (Toy.still 0 []) 10 =
    Finished {| games_played := 2;
                distinct_games := 1;
                players := ("random", "random");
                wins := [2; 0];
                total_returns := [2%Q; (-2)%Q] |} w'.
Proof.
  eexists. etransitivity.
  - eapply (completed_session_reports_all_games Toy.abc (Toy.scripted Toy.abc)
              (Toy.flags "random" "random" 2 (Some 7)) ["prog"]
              (Toy.still 0 []) 10).
    + vm_compute. discriminate.
    + vm_compute. reflexivity.
    + vm_compute. reflexivity.
    + reflexivity.
    + eapply completes_next; [vm_compute; reflexivity|vm_compute; reflexivity|].
      eapply completes_next; [vm_compute; reflexivity|vm_compute; reflexivity|].
      apply completes_none.
  - vm_compute. reflexivity.
Defined.

(** ** Games that end *)

Section Progress.

Context {State : Type}.
Variable game : Game State.
Variable FLAGS : Flags.

Lemma dispatch_ply_applies (r r' : Run State) :
  dispatch_ply game r = inr r' ->
  exists a str,
    state r' = apply_action game (state r) a /\
    history r' = history r ++ [str].
Proof.
  assert (Hc : forall r1 cp a str,
             state (conclude_ply game r1 cp a str) =
               apply_action game (state r1) a /\
             history (conclude_ply game r1 cp a str) = history r1 ++ [str]).
  { intros r1 cp a str. unfold conclude_ply.
    now destruct (inform_others 0 (bots r1) cp (state r1) a). }
  unfold dispatch_ply.
  destruct (is_chance_node game (state (classify r))).
  - destruct (sample_chance _ _) as [[e|a] w]; [discriminate|].
    intros [= <-].
    match goal with |- context [conclude_ply game ?r1 ?cp ?a ?str] =>
      exists a, str; exact (Hc r1 cp a str) end.
  - destruct (is_simultaneous_node game (state (classify r))); [discriminate|].
    destruct (py_index _ _) as [i|]; [|discriminate].
    destruct (bots (classify r) !! i) as [bot|]; [|discriminate].
    destruct (is_HumanBot (class_of bot)).
    + destruct (input (world (classify r))) as [[e|str] w]; [discriminate|].
      destruct (_get_action game (state (classify r)) str) as [a|];
        [|discriminate].
      intros [= <-].
      match goal with |- context [conclude_ply game ?r1 ?cp ?a ?str] =>
        exists a, str; exact (Hc r1 cp a str) end.
    + destruct (bot_step bot (state (classify r))) as [a bot'].
      intros [= <-].
      match goal with |- context [conclude_ply game ?r1 ?cp ?a ?str] =>
        exists a, str; exact (Hc r1 cp a str) end.
Qed.

Lemma dispatch_ply_raise_keeps_history (r r' : Run State) (e : exn) :
  dispatch_ply game r = inl (e, r') -> history r' = history r.
Proof.
  unfold dispatch_ply.
  destruct (is_chance_node game (state (classify r))).
  - destruct (sample_chance _ _) as [[e'|a] w]; [|discriminate].
    now intros [= _ <-].
  - destruct (is_simultaneous_node game (state (classify r)));
      [now intros [= _ <-]|].
    destruct (py_index _ _) as [i|]; [|now intros [= _ <-]].
    destruct (bots (classify r) !! i) as [bot|]; [|now intros [= _ <-]].
    destruct (is_HumanBot (class_of bot)).
    + destruct (input (world (classify r))) as [[e'|str] w];
        [now intros [= _ <-]|].
      destruct (_get_action game (state (classify r)) str) as [a|];
        [discriminate|now intros [= _ <-]].
    + destruct (bot_step bot (state (classify r))) as [a bot']. discriminate.
Qed.

Lemma play_loop_history_extends (fuel : nat) :
  forall r : Run State,
    exists later, history (run_of (play_loop game fuel r)) = history r ++ later.
Proof.
  induction fuel as [|fuel IH]; intros r; cbn [play_loop];
    destruct (is_terminal game (state r)); cbn [run_of];
    try (exists []; now rewrite app_nil_r).
  destruct (dispatch_ply game r) as [[e r1]|r1] eqn:Hd.
  - exists []. rewrite app_nil_r. exact (dispatch_ply_raise_keeps_history _ _ _ Hd).
  - destruct (dispatch_ply_applies _ _ Hd) as (a & str & _ & Hh).
    destruct (IH r1) as [later Hl]. exists (str :: later).
    rewrite Hl, Hh, <- app_assoc. reflexivity.
Qed.

Lemma opening_loop_history_returned (labels : list string) :
  forall (r r' : Run State) (u : unit),
    opening_loop game labels r = Returned u r' ->
    history r' = history r ++ labels.
Proof.
  induction labels as [|l labels IH]; intros r r' u; cbn [opening_loop].
  - intros [= _ <-]. now rewrite app_nil_r.
  - destruct (_get_action game (state r) l) as [a|]; [|discriminate].
    destruct (inform_all game 0 (bots r) (state r) a) as [bots' evs].
    intros H. rewrite (IH _ _ _ H). cbn [history].
    now rewrite <- app_assoc.
Qed.

Lemma play_loop_within_depth (depth : State -> nat) :
  (forall s a, is_terminal game s = false ->
               (depth (apply_action game s a) < depth s)%nat) ->
  forall (fuel : nat) (r r' : Run State),
    (depth (state r) <= fuel)%nat ->
    play_loop game fuel r <> OutOfFuel r'.
Proof.
  intros Hdec. induction fuel as [|fuel IH]; intros r r' Hle; cbn [play_loop];
    destruct (is_terminal game (state r)) eqn:Ht; try discriminate.
  - pose proof (Hdec (state r) 0 Ht). lia.
  - destruct (dispatch_ply game r) as [[e r1]|r1] eqn:Hd; [discriminate|].
    destruct (dispatch_ply_applies _ _ Hd) as (a & str & Hs & _).
    apply IH. rewrite Hs. pose proof (Hdec (state r) a Ht). lia.
Qed.

End Progress.

(** X14.  Games of bounded length end: when every action applied in a
    state that is not terminal brings the game strictly closer to its end, as
    measured by [depth], a game allowed as many turns of the loop as the
    greatest depth returns a result or raises; it never runs out of turns. *)
Theorem bounded_game_ends {State} (game : Game State) (FLAGS : Flags)
  (depth : State -> nat) (bs : list (Bot State))
  (initial_actions : list string) (w : World) (fuel : nat) :
  (forall s a, is_terminal game s = false ->
               (depth (apply_action game s a) < depth s)%nat) ->
  (forall s, (depth s <= fuel)%nat) ->
  (exists result r,
     _play_game game FLAGS bs initial_actions w fuel = Returned result r) \/
  (exists e r, _play_game game FLAGS bs initial_actions w fuel = Raised e r).
Proof.
  intros Hdec Hbound. unfold _play_game.
  destruct (choose_openings game FLAGS initial_actions _) as [[e r1]|[labels r1]];
    [right; eauto|].
  pose proof (opening_loop_replay game labels r1) as Ho.
  destruct (opening_loop game labels r1) as [[] r2|e r2|r2];
    [|right; eauto|contradiction].
  pose proof (play_loop_within_depth game depth Hdec fuel r2) as Hp.
  destruct (play_loop game fuel r2) as [[] r3|e r3|r3];
    [left; eauto|right; eauto|].
  exfalso. exact (Hp r3 (Hbound _) eq_refl).
Qed.

Lemma abc_depth (s : list Action) (a : Action) :
  is_terminal Toy.abc s = false ->
  (2 - length (apply_action Toy.abc s a) < 2 - length s)%nat.
Proof.
  destruct s as [|x [|y s]]; cbn; try lia. discriminate.
Qed.

(** X14 on [Toy.abc], whose games last two plies. *)
Lemma bounded_game_ends_witness :
  (exists result r,
     _play_game Toy.abc (Toy.flags "mcts" "mcts" 1 None)
       [Toy.first_legal Toy.abc; Toy.first_legal Toy.abc] []
       (Toy.still 0 []) 2 = Returned result r) \/
  (exists e r,
     _play_game Toy.abc (Toy.flags "mcts" "mcts" 1 None)
       [Toy.first_legal Toy.abc; Toy.first_legal Toy.abc] []
       (Toy.still 0 []) 2 = Raised e r).
Proof.
  apply (bounded_game_ends Toy.abc (Toy.flags "mcts" "mcts" 1 None)
           (fun s => (2 - length s)%nat)).
  - exact abc_depth.
  - intros s. lia.
Defined.

(** X15.  Forced openings come first: when the openings are taken from the
    command line and all of them resolve, the history of the game, whatever
    its outcome, starts with exactly those labels, in order. *)
Theorem history_starts_with_openings {State} (game : Game State)
  (FLAGS : Flags) (bs : list (Bot State)) (initial_actions : list string)
  (w : World) (fuel : nat) (s : State) :
  random_first FLAGS = false ->
  replay game (new_initial_state game) initial_actions = Some s ->
  exists later,
    history (run_of (_play_game game FLAGS bs initial_actions w fuel)) =
    initial_actions ++ later.
Proof.
  intros Hrf Hreplay. unfold _play_game, choose_openings. rewrite Hrf.
  set (r0 := mkRun (new_initial_state game) bs [] [] w).
  pose proof (opening_loop_replay game initial_actions r0) as Ho.
  pose proof (opening_loop_history_returned game initial_actions r0) as Hh.
  destruct (opening_loop game initial_actions r0) as [[] r1|e r1|r1].
  - specialize (Hh r1 tt eq_refl). cbn [history r0 app] in Hh.
    destruct (play_loop_history_extends game fuel r1) as [later Hl].
    exists later. rewrite <- Hh.
    destruct (play_loop game fuel r1) as [[] r2|e r2|r2]; exact Hl.
  - destruct Ho as [Hnone _]. cbn [state r0] in Hnone. congruence.
  - contradiction.
Qed.

(** X15 on a game of [Toy.abc] opened with "C". *)
Lemma history_starts_with_openings_witness :
  exists later,
    history (run_of (_play_game Toy.abc (Toy.flags "mcts" "mcts" 1 None)
                       [Toy.first_legal Toy.abc; Toy.first_legal Toy.abc]
                       ["C"] (Toy.still 0 []) 5)) =
    ["C"] ++ later.
Proof.
  apply (history_starts_with_openings Toy.abc (Toy.flags "mcts" "mcts" 1 None)
           [Toy.first_legal Toy.abc; Toy.first_legal Toy.abc] ["C"]
           (Toy.still 0 []) 5 [2]).
  - reflexivity.
  - reflexivity.
Defined.

(** ** What chance sampling can apply *)

Section ChanceMoves.

Context {State : Type}.
Variable game : Game State.
Variable FLAGS : Flags.

Lemma applied_in_ply_calls (n : nat) (s s' : State) (a a' : Action) :
  In (Applied s' a') (ply_calls game n s a) -> s' = s /\ a' = a.
Proof.
  unfold ply_calls. intros Hin. apply in_app_or in Hin as [Hin|[Heq|[]]].
  - apply in_map_iff in Hin as (j & Hj & _). discriminate Hj.
  - injection Heq as -> ->. now split.
Qed.

Lemma conclude_ply_chance_moves (r : Run State) (a : Action) (str : string) :
  chance_moves_listed game (trace r) ->
  (is_chance_node game (state r) = true ->
   exists p, In (a, p) (chance_outcomes game (state r))) ->
  chance_moves_listed game
    (trace (conclude_ply game r (current_player game (state r)) a str)).
Proof.
  intros Hold Hnew s' a' Hin Hc.
  destruct (conclude_ply_calls game r a str) as [Htr _]. cbv zeta in Htr.
  rewrite Htr in Hin. apply in_app_or in Hin as [Hin|Hin].
  - exact (Hold s' a' Hin Hc).
  - apply applied_in_ply_calls in Hin as [-> ->]. exact (Hnew Hc).
Qed.

Lemma classify_chance_moves (r : Run State) :
  chance_moves_listed game (trace r) ->
  chance_moves_listed game (trace (classify r)).
Proof.
  intros Hold s' a' Hin Hc. cbn [classify trace] in Hin.
  apply in_app_or in Hin as [Hin|[Heq|[]]]; [exact (Hold s' a' Hin Hc)|].
  discriminate Heq.
Qed.

Lemma dispatch_ply_chance_moves (r : Run State) :
  chance_moves_listed game (trace r) ->
  match dispatch_ply game r with
  | inl (_, r') | inr r' => chance_moves_listed game (trace r')
  end.
Proof.
  intros Hold. apply classify_chance_moves in Hold. unfold dispatch_ply.
  set (r1 := classify r) in *.
  destruct (is_chance_node game (state r1)) eqn:Hc.
  - destruct (sample_chance _ _) as [[e|a] w] eqn:Hs; [exact Hold|].
    apply (conclude_ply_chance_moves (with_world r1 w)); [exact Hold|].
    intros _. exact (sample_chance_in _ _ _ _ Hs).
  - destruct (is_simultaneous_node game (state r1)); [exact Hold|].
    destruct (py_index _ _) as [i|]; [|exact Hold].
    destruct (bots r1 !! i) as [bot|]; [|exact Hold].
    destruct (is_HumanBot (class_of bot)).
    + destruct (input (world r1)) as [[e|str] w]; [exact Hold|].
      destruct (_get_action game (state r1) str) as [a|]; [|exact Hold].
      apply (conclude_ply_chance_moves (with_world r1 w)); [exact Hold|].
      cbn [with_world state]. congruence.
    + destruct (bot_step bot (state r1)) as [a bot'].
      apply (conclude_ply_chance_moves
               (with_bots r1 (<[i:=bot']> (bots r1)))); [exact Hold|].
      cbn [with_bots state]. congruence.
Qed.

Lemma play_loop_chance_moves (fuel : nat) :
  forall r : Run State,
    chance_moves_listed game (trace r) ->
    chance_moves_listed game (trace (run_of (play_loop game fuel r))).
Proof.
  induction fuel as [|fuel IH]; intros r Hold; cbn [play_loop];
    destruct (is_terminal game (state r)); cbn [run_of]; try exact Hold.
  pose proof (dispatch_ply_chance_moves r Hold) as Hd.
  destruct (dispatch_ply game r) as [[e r1]|r1]; [exact Hd|].
  exact (IH r1 Hd).
Qed.

End ChanceMoves.

(** X9.  What the dispatcher applies at a chance node is an outcome of that
    node: in a game started without forced openings, every action applied to
    a chance node, whatever the outcome of the game, is one of the outcomes
    that the engine lists for that node. *)
Theorem chance_moves_are_listed_outcomes {State} (game : Game State)
  (FLAGS : Flags) (bs : list (Bot State)) (w : World) (fuel : nat) :
  random_first FLAGS = false ->
  chance_moves_listed game
    (trace (run_of (_play_game game FLAGS bs [] w fuel))).
Proof.
  intros Hrf. unfold _play_game, choose_openings. rewrite Hrf.
  cbn [opening_loop].
  set (r0 := mkRun (new_initial_state game) bs [] [] w).
  assert (H0 : chance_moves_listed game (trace r0)) by (intros s a []).
  pose proof (play_loop_chance_moves game fuel r0 H0) as Hp.
  destruct (play_loop game fuel r0) as [[] r1|e r1|r1]; exact Hp.
Qed.

(** X9 on the coin flip of [Toy.coin]. *)
Lemma chance_moves_are_listed_outcomes_witness :
  exists p, In (0, p) (chance_outcomes Toy.coin []).
Proof.
  apply (chance_moves_are_listed_outcomes Toy.coin
           (Toy.flags "mcts" "mcts" 1 None)
           [Toy.first_legal Toy.coin; Toy.first_legal Toy.coin]
           (Toy.still 0 []) 5 eq_refl [] 0).
  - vm_compute. right. right. right. left. reflexivity.
  - reflexivity.
Defined.

(** ** Building the bots *)

(** X16.  [_init_bot] makes its generator before it looks at the kind of bot
    asked for: with a seed that numpy refuses (below 0 or above 2^32 - 1) it
    raises that [ValueError] for every kind, "human" and the unknown kinds
    included, and leaves everything else as it was; and a session started
    with such a seed ends with that error before its first game, with nothing
    recorded. *)
Theorem refused_seed_stops_every_bot {State} (game : Game State)
  (lib : BotLibrary State) (FLAGS : Flags) (argv : list string) (w : World)
  (fuel : nat) (bot_type : string) (player_id : Z) (s : Z) :
  seed FLAGS = Some s ->
  s < 0 \/ 2 ^ 32 - 1 < s ->
  _init_bot lib FLAGS bot_type player_id w =
  (inl (ValueError "Seed must be between 0 and 2**32 - 1"), w) /\
  (num_players game <= 2 ->
   main game lib FLAGS argv w fuel =
   Crashed (ValueError "Seed must be between 0 and 2**32 - 1")
           initial_locals w).
Proof.
  intros Hseed Hout.
  assert (Hinit : forall kind id,
             _init_bot lib FLAGS kind id w =
             (inl (ValueError "Seed must be between 0 and 2**32 - 1"), w)).
  { intros kind id. unfold _init_bot, RandomState_new. rewrite Hseed.
    destruct (Z.leb_spec 0 s) as [H0|H0];
      destruct (Z.leb_spec s (2 ^ 32 - 1)) as [H1|H1];
      cbn [andb]; try reflexivity.
    lia. }
  split; [apply Hinit|].
  intros Hn. unfold main.
  destruct (Z.ltb_spec 2 (num_players game)) as [Hgt|_]; [lia|].
  now rewrite Hinit.
Qed.

(** X16 on a session between a human and a bot of an unknown kind, started
    with the seed -1. *)
Lemma refused_seed_stops_every_bot_witness :
  _init_bot (Toy.scripted Toy.abc) (Toy.flags "human" "nobody" 3 (Some (-1)))
            "nobody" 1 (Toy.still 0 []) =
  (inl (ValueError "Seed must be between 0 and 2**32 - 1"), Toy.still 0 []) /\
  (num_players Toy.abc <= 2 ->
   main Toy.abc (Toy.scripted Toy.abc)
        (Toy.flags "human" "nobody" 3 (Some (-1))) ["prog"] (Toy.still 0 []) 5 =
   Crashed (ValueError "Seed must be between 0 and 2**32 - 1")
           initial_locals (Toy.still 0 [])).
Proof.
  apply (refused_seed_stops_every_bot Toy.abc (Toy.scripted Toy.abc)
           (Toy.flags "human" "nobody" 3 (Some (-1))) ["prog"]
           (Toy.still 0 []) 5 "nobody" 1 (-1)).
  - reflexivity.
  - left. lia.
Defined.

(** ** The random first move *)

(** X17.  With [--random_first], a game given forced openings fails its
    assertion before anything happens.  Given none, it draws from Python's
    global generator: when the initial state has no legal action the draw
    raises [IndexError] with nothing played; otherwise the draw selects the
    legal action of the initial state at the index the generator gives, and
    the history of the game, whatever its outcome, starts with the label of
    that action. *)
Theorem random_first_opening {State} (game : Game State) (FLAGS : Flags)
  (bs : list (Bot State)) (w : World) (fuel : nat) :
  random_first FLAGS = true ->
  (forall labels,
     labels <> [] ->
     _play_game game FLAGS bs labels w fuel =
     Raised AssertionError (mkRun (new_initial_state game) bs [] [] w)) /\
  match legal_actions game (new_initial_state game) with
  | [] =>
    exists r,
      _play_game game FLAGS bs [] w fuel = Raised IndexError r /\
      history r = [] /\ trace r = []
  | a0 :: acts =>
    exists a later,
      List.nth_error (a0 :: acts)
        (below (py_random w) (py_cursor (py_random w)) (length (a0 :: acts))
         mod length (a0 :: acts)) = Some a /\
      history (run_of (_play_game game FLAGS bs [] w fuel)) =
      label_of game (new_initial_state game) a :: later
  end.
Proof.
  intros Hrf. unfold _play_game, choose_openings. rewrite Hrf. split.
  - intros labels Hne. destruct labels; [congruence|reflexivity].
  - cbn [state world].
    destruct (legal_actions game (new_initial_state game)) as [|a0 acts] eqn:Hl.
    + cbn [random_choice]. eexists. now repeat split.
    + unfold random_choice.
      set (i := (below (py_random w) (py_cursor (py_random w))
                       (length (a0 :: acts)) mod length (a0 :: acts))%nat).
      assert (Hi : (i < length (a0 :: acts))%nat)
        by (apply Nat.mod_upper_bound; cbn; lia).
      destruct (List.nth_error (a0 :: acts) i) as [a|] eqn:Hn;
        [|apply nth_error_None in Hn; lia].
      assert (Hin : In a (legal_actions game (new_initial_state game)))
        by (rewrite Hl; exact (nth_error_In _ _ Hn)).
      set (r1 := with_world _ _).
      pose proof (get_action_own_label game _ a Hin) as Hown.
      pose proof (opening_loop_replay game
                    [label_of game (new_initial_state game) a] r1) as Ho.
      pose proof (opening_loop_history_returned game
                    [label_of game (new_initial_state game) a] r1) as Hh.
      destruct (opening_loop game _ r1) as [[] r2|e r2|r2].
      * specialize (Hh r2 tt eq_refl). cbn [history r1 with_world app] in Hh.
        destruct (play_loop_history_extends game fuel r2) as [later Hlater].
        exists a, later. split; [reflexivity|]. rewrite Hh in Hlater.
        destruct (play_loop game fuel r2) as [[] r3|e r3|r3]; exact Hlater.
      * exfalso. destruct Ho as [Hnone _].
        cbn [replay state r1 with_world] in Hnone.
        destruct (_get_action game (new_initial_state game)
                    (label_of game (new_initial_state game) a));
          [discriminate|contradiction].
      * contradiction.
Qed.

(** X17 on a game of [Toy.abc] started with a random first move, the
    generator pointing at the second legal action. *)
Lemma random_first_opening_witness :
  exists later,
    history (run_of (_play_game Toy.abc
      {| flag_game := "toy"; player1 := "mcts"; player2 := "mcts";
         gtp_path := None; gtp_cmd := []; az_path := None; uct_c := 3;
         rollout_count := 1; max_simulations := 70; num_games := 1;
         seed := None; random_first := true; solve := true; quiet := true;
         verbose := false |}
      [Toy.first_legal Toy.abc; Toy.first_legal Toy.abc] []
      (set_py_random (Toy.still 0 [])
                     {| below := fun _ _ => 1%nat; py_cursor := O |}) 5)) =
    "B" :: later.
Proof.
  destruct (random_first_opening Toy.abc
              {| flag_game := "toy"; player1 := "mcts"; player2 := "mcts";
                 gtp_path := None; gtp_cmd := []; az_path := None; uct_c := 3;
                 rollout_count := 1; max_simulations := 70; num_games := 1;
                 seed := None; random_first := true; solve := true;
                 quiet := true; verbose := false |}
              [Toy.first_legal Toy.abc; Toy.first_legal Toy.abc]
              (set_py_random (Toy.still 0 [])
                             {| below := fun _ _ => 1%nat; py_cursor := O |}) 5
              eq_refl) as [_ (a & later & Hpick & Hhist)].
  exists later. injection Hpick as <-. exact Hhist.
Defined.

(** ** Simultaneous nodes *)

Section Simultaneous.

Context {State : Type}.
Variable game : Game State.
Variable FLAGS : Flags.




End Simultaneous.



